(** * vsesnap: frame alignment and sampling engine

    A shallow embedding of the arithmetic core of [screenshot_engine.py] and of
    the history scan of [vse_screenshot_gui.py], with the properties the
    specification states about them.

    Conventions.
    - Python [int] is [Z]; a Python list of ints is [list Z]; [range(a, b)] is
      stdpp's [seqZ a (b - a)].
    - A Python [str] is the list of its UTF-8 bytes ([list ascii]).  The
      string methods used by the code split, search or replace at ASCII
      characters only, which commutes with UTF-8 encoding; [int()], [float()]
      and the digit class of [re] read characters, which are decoded from the
      bytes.
    - A Python exception is an explicit error value. *)

From Stdlib Require Import ZArith QArith Qabs Qround Qpower Floats Ascii String.
From Stdlib Require Import List Lia.
From Stdlib Require Import DecimalString DecimalN Lqa.
From stdpp Require Import base decidable option list list_numbers sorting strings gmap.

Open Scope Z_scope.

(** ** Python primitives *)

Definition lit (s : string) : list ascii := list_ascii_of_string s.

(** Exceptions the modelled code can raise, and computations that may raise. *)
Inductive py_error : Set :=
  | ValueError | ZeroDivisionError | OverflowError | IndexError | DecoderError.

Inductive result (A : Type) : Type :=
  | Ok (a : A)
  | Raise (e : py_error).
Arguments Ok {A} a.
Arguments Raise {A} e.

#[global] Instance result_ret : MRet result := λ A a, Ok a.
#[global] Instance result_bind : MBind result :=
  λ A B k m, match m with Ok a => k a | Raise e => Raise e end.
#[global] Instance result_fmap : FMap result :=
  λ A B f m, match m with Ok a => Ok (f a) | Raise e => Raise e end.

Definition is_ok {A} (m : result A) : bool :=
  match m with Ok _ => true | Raise _ => false end.

(** [range(a, b)] *)
Definition py_range (a b : Z) : list Z := seqZ a (b - a).

(** *** Characters and strings *)

Definition is_digit (c : ascii) : bool :=
  ((48 <=? N_of_ascii c) && (N_of_ascii c <=? 57))%N.

Definition digit_val (c : ascii) : N := (N_of_ascii c - 48)%N.

(** ASCII whitespace, as [int()] and [float()] skip it at both ends *)
Definition is_space (c : ascii) : bool :=
  let n := N_of_ascii c in
  ((n =? 32) || ((9 <=? n) && (n <=? 13)))%N.

Definition lower (c : ascii) : ascii :=
  let n := N_of_ascii c in
  if ((65 <=? n) && (n <=? 90))%N then ascii_of_N (n + 32) else c.

Fixpoint lstrip (s : list ascii) : list ascii :=
  match s with
  | c :: s' => if is_space c then lstrip s' else s
  | [] => []
  end.

Definition strip (s : list ascii) : list ascii :=
  rev (lstrip (rev (lstrip s))).

(** *** Characters outside ASCII

    A character of a [str] is a lead byte followed by its continuation
    bytes.  [int()], [float()] and the digit class of [re] accept the decimal
    digits of every script, and [int()] and [float()] the white space of
    Unicode; the two tables are those of the Unicode Character Database 14.0,
    which CPython 3.11 carries. *)
Definition is_continuation (c : ascii) : bool :=
  ((128 <=? N_of_ascii c) && (N_of_ascii c <? 192))%N.

(** The characters of a string. *)
Fixpoint utf8_chars (s : list ascii) : list (list ascii) :=
  match s with
  | [] => []
  | c :: s' =>
      match utf8_chars s' with
      | ((c' :: _) as ch) :: chs =>
          if is_continuation c' then (c :: ch) :: chs else [c] :: ch :: chs
      | chs => [c] :: chs
      end
  end.

Definition continuation_bits (c : ascii) : option N :=
  if is_continuation c then Some (N_of_ascii c - 128)%N else None.

(** The code point that a character encodes; [None] for bytes that encode
    no character. *)
Definition code_point (ch : list ascii) : option N :=
  match ch with
  | [a] => if (N_of_ascii a <? 128)%N then Some (N_of_ascii a) else None
  | [a; b] =>
      x ← continuation_bits b;
      let n := ((N_of_ascii a - 192) * 64 + x)%N in
      if ((192 <=? N_of_ascii a) && (N_of_ascii a <? 224) && (128 <=? n))%N
      then Some n else None
  | [a; b; c] =>
      x ← continuation_bits b;
      y ← continuation_bits c;
      let n := (((N_of_ascii a - 224) * 64 + x) * 64 + y)%N in
      if ((224 <=? N_of_ascii a) && (N_of_ascii a <? 240) && (2048 <=? n)
          && negb ((55296 <=? n) && (n <? 57344)))%N
      then Some n else None
  | [a; b; c; d] =>
      x ← continuation_bits b;
      y ← continuation_bits c;
      z ← continuation_bits d;
      let n := ((((N_of_ascii a - 240) * 64 + x) * 64 + y) * 64 + z)%N in
      if ((240 <=? N_of_ascii a) && (N_of_ascii a <? 248) && (65536 <=? n)
          && (n <? 1114112))%N
      then Some n else None
  | _ => None
  end.

(** The decimal digits of Unicode come in runs [0..9]; these are the first
    code points of the runs. *)
Definition decimal_digit_blocks : list N :=
  [
    48; 1632; 1776; 1984; 2406; 2534; 2662; 2790; 2918; 3046; 3174; 3302;
    3430; 3558; 3664; 3792; 3872; 4160; 4240; 6112; 6160; 6470; 6608; 6784;
    6800; 6992; 7088; 7232; 7248; 42528; 43216; 43264; 43472; 43504; 43600;
    44016; 65296; 66720; 68912; 69734; 69872; 69942; 70096; 70384; 70736;
    70864; 71248; 71360; 71472; 71904; 72016; 72784; 73040; 73120; 92768;
    92864; 93008; 120782; 120792; 120802; 120812; 120822; 123200; 123632;
    125264; 130032
  ]%N.

(** [Py_UNICODE_TODECIMAL]: the value of a decimal digit *)
Definition unicode_decimal (n : N) : option N :=
  (λ b, n - b)%N
    <$> List.find (λ b, (b <=? n) && (n <? b + 10))%N decimal_digit_blocks.

(** [Py_UNICODE_ISSPACE] *)
Definition unicode_spaces : list N :=
  [
    9; 10; 11; 12; 13; 28; 29; 30; 31; 32; 133; 160; 5760; 8192; 8193;
    8194; 8195; 8196; 8197; 8198; 8199; 8200; 8201; 8202; 8232; 8233; 8239;
    8287; 12288
  ]%N.

Definition unicode_isspace (n : N) : bool := existsb (N.eqb n) unicode_spaces.

(** The decimal digit that a character is, if it is one: what [\d] of [re]
    matches. *)
Definition char_decimal (ch : list ascii) : option N :=
  code_point ch ≫= unicode_decimal.

Definition is_decimal (ch : list ascii) : bool :=
  match char_decimal ch with Some _ => true | None => false end.

(** What [int()] and [float()] read in place of a string
    ([_PyUnicode_TransformDecimalAndSpaceToASCII] of CPython): a string that
    is all ASCII is read as it is; otherwise a character below 127 is kept, a
    space becomes an ASCII space, a decimal digit its ASCII digit, and the
    first character that is none of these becomes a question mark that ends
    the string.
<<
    if (PyUnicode_IS_ASCII(unicode)) return unicode;
    for (i = 0; i < len; ++i) {
        ch = PyUnicode_READ(kind, data, i);
        if (ch < 127) out[i] = ch;
        else if (Py_UNICODE_ISSPACE(ch)) out[i] = ' ';
        else {
            decimal = Py_UNICODE_TODECIMAL(ch);
            if (decimal < 0) { out[i] = '?'; length = i + 1; break; }
            out[i] = '0' + decimal;
        }
    }
>> *)
Definition ascii_of_char (ch : list ascii) : option ascii :=
  match code_point ch with
  | Some n =>
      if (n <? 127)%N then Some (ascii_of_N n)
      else if unicode_isspace n then Some " "%char
      else (λ d, ascii_of_N (48 + d)) <$> unicode_decimal n
  | None => None
  end.

Fixpoint transform_chars (chs : list (list ascii)) : list ascii :=
  match chs with
  | [] => []
  | ch :: chs' =>
      match ascii_of_char ch with
      | Some a => a :: transform_chars chs'
      | None => ["?"%char]
      end
  end.

Definition transform_decimal_and_space (s : list ascii) : list ascii :=
  if forallb (λ c, N_of_ascii c <? 128)%N s then s
  else transform_chars (utf8_chars s).

(** The longest prefix of the form [digit (["_"] digit)*], with its
    underscores removed, and what follows it.  This is how [int()] and
    [float()] read a run of digits. *)
Fixpoint take_digits (s : list ascii) : list ascii * list ascii :=
  match s with
  | c :: s' =>
      if is_digit c then
        match s' with
        | u :: (d :: _) as s'' =>
            if Ascii.eqb u "_" && is_digit d
            then let '(ds, r) := take_digits s'' in (c :: ds, r)
            else let '(ds, r) := take_digits s' in (c :: ds, r)
        | _ => let '(ds, r) := take_digits s' in (c :: ds, r)
        end
      else ([], s)
  | [] => ([], [])
  end.

Definition digits_value (ds : list ascii) : N :=
  fold_left (λ acc c, 10 * acc + digit_val c)%N ds 0%N.

Definition take_sign (s : list ascii) : bool * list ascii :=
  match s with
  | c :: s' =>
      if Ascii.eqb c "-" then (true, s')
      else if Ascii.eqb c "+" then (false, s')
      else (false, s)
  | [] => (false, [])
  end.

(** [int(s)] for a string [s]: surrounding whitespace, a sign, then digits
    that underscores may separate.  The interpreter's limit on the number of
    digits is not modelled. *)
Definition py_int (s : list ascii) : result Z :=
  let '(neg, u) := take_sign (strip (transform_decimal_and_space s)) in
  match take_digits u with
  | ((_ :: _) as ds, []) =>
      let n := Z.of_N (digits_value ds) in
      Ok (if neg then - n else n)
  | _ => Raise ValueError
  end.

(** [s.split(sep)] for a one-character separator *)
Fixpoint split (sep : ascii) (s : list ascii) : list (list ascii) :=
  match s with
  | [] => [[]]
  | c :: s' =>
      if Ascii.eqb c sep then [] :: split sep s'
      else match split sep s' with
           | p :: ps => (c :: p) :: ps
           | [] => [[c]]
           end
  end.

(** [s.endswith(suffix)] *)
Definition endswith (s suffix : list ascii) : bool :=
  bool_decide (drop (length s - length suffix) s = suffix).

(** [s.replace(old, new)] for one-character [old] and [new] *)
Definition replace (old new : ascii) (s : list ascii) : list ascii :=
  (λ c, if Ascii.eqb c old then new else c) <$> s.

(** [str(n)] and [f"{n:06d}"] *)
Definition str_of_N (n : N) : list ascii :=
  list_ascii_of_string (NilEmpty.string_of_uint (N.to_uint n)).

Definition zfill (width : nat) (s : list ascii) : list ascii :=
  replicate (width - length s) "0"%char ++ s.

Definition format_06d (n : Z) : list ascii :=
  if n <? 0 then "-"%char :: zfill 5 (str_of_N (Z.to_N (- n)))
  else zfill 6 (str_of_N (Z.to_N n)).

(** [s.rfind(c)]: the index of the last occurrence of [c], or [-1] *)
Fixpoint rfind_from (c : ascii) (s : list ascii) (i last : Z) : Z :=
  match s with
  | [] => last
  | x :: s' => rfind_from c s' (i + 1) (if Ascii.eqb x c then i else last)
  end.

Definition rfind (c : ascii) (s : list ascii) : Z := rfind_from c s 0 (-1).

(** [os.path.splitext] is [genericpath._splitext(p, sep, altsep, '.')] of the
    Python standard library; [sep] and [altsep] depend on the platform.
<<
    sepIndex = p.rfind(sep)
    if altsep:
        altsepIndex = p.rfind(altsep)
        sepIndex = max(sepIndex, altsepIndex)
    dotIndex = p.rfind(extsep)
    if dotIndex > sepIndex:
        filenameIndex = sepIndex + 1
        while filenameIndex < dotIndex:
            if p[filenameIndex:filenameIndex+1] != extsep:
                return p[:dotIndex], p[dotIndex:]
            filenameIndex += 1
    return p, p[:0]
>> *)
Record os_path : Set := { sep : ascii; altsep : option ascii }.

Definition ntpath : os_path := {| sep := "\"; altsep := Some "/"%char |}.
Definition posixpath : os_path := {| sep := "/"; altsep := None |}.

Definition splitext (os : os_path) (p : list ascii)
  : list ascii * list ascii :=
  let sepIndex :=
    match altsep os with
    | Some a => Z.max (rfind (sep os) p) (rfind a p)
    | None => rfind (sep os) p
    end in
  let dotIndex := rfind "." p in
  if (sepIndex <? dotIndex)
     && existsb (λ c, negb (Ascii.eqb c "."))
                (take (Z.to_nat (dotIndex - (sepIndex + 1)))
                      (drop (Z.to_nat (sepIndex + 1)) p))
  then (take (Z.to_nat dotIndex) p, drop (Z.to_nat dotIndex) p)
  else (p, []).

(** ** [sanitize_filename] ([screenshot_engine.py], lines 259-277) *)
Definition illegal_chars : list ascii :=
  lit "<>:" ++ [ascii_of_N 34] ++ lit "/\|?*".

Definition sanitize_filename (os : os_path) (filename : list ascii)
  : list ascii :=
  let name_without_ext := (splitext os filename).1 in
  fold_left (λ name char, replace char "_" name) illegal_chars name_without_ext.

(** ** Tolerance window ([screenshot_engine.py], lines 669-673 and 707-711)

<<
    frames_to_capture = []
    for offset in range(-video_tolerance, video_tolerance + 1):
        frame_num = base_frame + offset
        if 0 <= frame_num < video_total_frames:
            frames_to_capture.append(frame_num)
>> *)
Definition frames_to_capture (base_frame video_tolerance video_total_frames : Z)
  : list Z :=
  filter (λ frame_num, 0 ≤ frame_num ∧ frame_num < video_total_frames)
         ((λ offset, base_frame + offset) <$>
            py_range (- video_tolerance) (video_tolerance + 1)).

(** ** Python floats

    The engine computes with Python [float]s.  The operations it uses are
    collected in an interface with two implementations: [xfloat], where finite
    values are exact rationals (the arithmetic of the specification, without
    rounding), and [PrimFloat.float], IEEE binary64 as Python computes. *)
Class PyFloat (F : Type) := {
  (** the float nearest to [(-1)^neg * m * 10^e] *)
  float_of_decimal : bool → N → Z → F;
  float_inf : bool → F;
  float_nan : F;
  (** [float(n)] for an int, as done implicitly by [n * x] *)
  float_of_int : Z → result F;
  (** [x / y] *)
  float_truediv : F → F → result F;
  float_mul : F → F → F;
  float_sub : F → F → F;
  float_abs : F → F;
  (** [x > y] *)
  float_gt : F → F → bool;
  (** [int(x)]: truncation towards zero *)
  int_of_float : F → result Z;
}.

(** *** Exact arithmetic *)
Inductive xfloat : Type :=
  | Fin (q : Q)
  | Inf (neg : bool)
  | NaN.

Definition Qnegb (q : Q) : bool := Qnum q <? 0.
Definition Qzerob (q : Q) : bool := Qnum q =? 0.

Definition x_of_decimal (neg : bool) (m : N) (e : Z) : xfloat :=
  Fin (inject_Z (if neg then - Z.of_N m else Z.of_N m) * Qpower (10 # 1) e).

Definition x_truediv (a b : xfloat) : result xfloat :=
  match b with
  | Fin q =>
      if Qzerob q then Raise ZeroDivisionError
      else match a with
           | Fin p => Ok (Fin (p / q))
           | Inf s => Ok (Inf (xorb s (Qnegb q)))
           | NaN => Ok NaN
           end
  | Inf _ => match a with Fin _ => Ok (Fin 0) | _ => Ok NaN end
  | NaN => Ok NaN
  end.

Definition x_mul (a b : xfloat) : xfloat :=
  match a, b with
  | Fin p, Fin q => Fin (p * q)
  | Fin p, Inf s | Inf s, Fin p =>
      if Qzerob p then NaN else Inf (xorb s (Qnegb p))
  | Inf s, Inf t => Inf (xorb s t)
  | _, _ => NaN
  end.

Definition x_sub (a b : xfloat) : xfloat :=
  match a, b with
  | Fin p, Fin q => Fin (p - q)
  | Fin _, Inf t => Inf (negb t)
  | Inf s, Fin _ => Inf s
  | Inf s, Inf t => if Bool.eqb s t then NaN else Inf s
  | _, _ => NaN
  end.

Definition x_abs (a : xfloat) : xfloat :=
  match a with
  | Fin p => Fin (Qabs p)
  | Inf _ => Inf false
  | NaN => NaN
  end.

Definition x_gt (a b : xfloat) : bool :=
  match a, b with
  | Fin p, Fin q => negb (Qle_bool p q)
  | Fin _, Inf t => t
  | Inf s, Fin _ => negb s
  | Inf s, Inf t => negb s && t
  | _, _ => false
  end.

Definition x_to_int (a : xfloat) : result Z :=
  match a with
  | Fin p => Ok (Z.quot (Qnum p) (Z.pos (Qden p)))
  | Inf _ => Raise OverflowError
  | NaN => Raise ValueError
  end.

#[global] Instance xfloat_PyFloat : PyFloat xfloat := {|
  float_of_decimal := x_of_decimal;
  float_inf := Inf;
  float_nan := NaN;
  float_of_int := λ n, Ok (Fin (inject_Z n));
  float_truediv := x_truediv;
  float_mul := x_mul;
  float_sub := x_sub;
  float_abs := x_abs;
  float_gt := x_gt;
  int_of_float := x_to_int;
|}.

(** *** IEEE binary64 *)
Definition b_of_decimal (neg : bool) (m : N) (e : Z) : float :=
  let z := if neg then - Z.of_N m else Z.of_N m in
  SF2Prim
    (if (m =? 0)%N then S754_zero neg
     else if 0 <=? e then binary_normalize prec emax (z * 10 ^ e) 0 neg
     else SFdiv prec emax (S754_finite neg (Z.to_pos (Z.of_N m)) 0)
                          (S754_finite false (Z.to_pos (10 ^ (- e))) 0)).

Definition b_of_int (n : Z) : result float :=
  match binary_normalize prec emax n 0 false with
  | S754_infinity _ => Raise OverflowError
  | sf => Ok (SF2Prim sf)
  end.

Definition b_truediv (a b : float) : result float :=
  if PrimFloat.eqb b 0 then Raise ZeroDivisionError else Ok (a / b)%float.

Definition b_to_int (a : float) : result Z :=
  match Prim2SF a with
  | S754_zero _ => Ok 0
  | S754_finite s m e =>
      let v := if 0 <=? e then Z.pos m * 2 ^ e else Z.pos m / 2 ^ (- e) in
      Ok (if s then - v else v)
  | S754_infinity _ => Raise OverflowError
  | S754_nan => Raise ValueError
  end.

#[global] Instance binary64_PyFloat : PyFloat float := {|
  float_of_decimal := b_of_decimal;
  float_inf := λ neg, if neg then neg_infinity else infinity;
  float_nan := nan;
  float_of_int := b_of_int;
  float_truediv := b_truediv;
  float_mul := PrimFloat.mul;
  float_sub := PrimFloat.sub;
  float_abs := PrimFloat.abs;
  float_gt := λ a b, PrimFloat.ltb b a;
  int_of_float := b_to_int;
|}.

(** The rational that a finite double stands for. *)
Definition float_value (x : float) : option Q :=
  match Prim2SF x with
  | S754_zero _ => Some 0%Q
  | S754_finite s m e =>
      Some (inject_Z (if s then Z.neg m else Z.pos m) * Qpower (2 # 1) e)%Q
  | _ => None
  end.

(** ** Reading floats from strings *)

(** The longest prefix of decimal digits of a list of characters: what a
    greedy digit repetition of a regular expression consumes. *)
Fixpoint span_digits (s : list (list ascii))
  : list (list ascii) * list (list ascii) :=
  match s with
  | c :: s' =>
      if is_decimal c then let '(ds, r) := span_digits s' in (c :: ds, r)
      else ([], s)
  | [] => ([], [])
  end.

(** What the pattern of [parse_screenshot_fps] (one or more digits, an
    optional dot, any number of digits, all greedy) matches at the start of
    [s] when [s] begins with a digit; no alternative ever needs backtracking. *)
Definition match_number (s : list (list ascii)) : list (list ascii) :=
  let '(d1, r1) := span_digits s in
  match r1 with
  | c :: r2 =>
      if bool_decide (c = ["."%char]) then d1 ++ c :: (span_digits r2).1
      else d1
  | [] => d1
  end.

(** [re.search] with that pattern: group 1 of the leftmost match, as a
    list of characters. *)
Fixpoint re_search_number (s : list (list ascii))
  : option (list (list ascii)) :=
  match s with
  | [] => None
  | c :: s' =>
      if is_decimal c then Some (match_number s) else re_search_number s'
  end.

Section floats.
Context {F : Type} `{PyFloat F}.

(** [float(s)] for a string [s]: surrounding whitespace, a sign, then
    [inf], [infinity] or [nan] in any case, or a decimal numeral with an
    optional exponent; underscores may separate digits. *)
Definition float_of_str (s : list ascii) : result F :=
  let '(neg, u) := take_sign (strip (transform_decimal_and_space s)) in
  let w := lower <$> u in
  if bool_decide (w = lit "inf") || bool_decide (w = lit "infinity")
  then Ok (float_inf neg)
  else if bool_decide (w = lit "nan") then Ok float_nan
  else
    let '(ip, r1) := take_digits u in
    let '(fp, r2) :=
      match r1 with
      | c :: r => if Ascii.eqb c "." then take_digits r else ([], r1)
      | [] => ([], r1)
      end in
    let m := digits_value (ip ++ fp) in
    let scale := - Z.of_nat (length fp) in
    match ip ++ fp, r2 with
    | [], _ => Raise ValueError
    | _, [] => Ok (float_of_decimal neg m scale)
    | _, c :: r3 =>
        if Ascii.eqb (lower c) "e" then
          let '(eneg, r4) := take_sign r3 in
          match take_digits r4 with
          | ((_ :: _) as ed, []) =>
              let e := Z.of_N (digits_value ed) in
              Ok (float_of_decimal neg m ((if eneg then - e else e) + scale))
          | _ => Raise ValueError
          end
        else Raise ValueError
    end.

(** [parse_screenshot_fps] ([screenshot_engine.py], lines 493-511)
<<
  try:
      return float(screenshot_fps)
  except (ValueError, TypeError):
      match = re.search(PATTERN, str(screenshot_fps))
      if match:
          return float(match.group(1))
      return 25.0
>> *)
Definition parse_screenshot_fps (screenshot_fps : list ascii) : result F :=
  match float_of_str screenshot_fps with
  | Ok x => Ok x
  | Raise ValueError =>
      match re_search_number (utf8_chars screenshot_fps) with
      | Some group1 => float_of_str (concat group1)
      | None => Ok (float_of_decimal false 25 0)
      end
  | Raise e => Raise e
  end.

(** [calculate_frame_ratio] ([screenshot_engine.py], lines 514-526) *)
Definition calculate_frame_ratio (screenshot_fps : list ascii)
    (reference_fps : F) : result F :=
  target_fps ← parse_screenshot_fps screenshot_fps;
  float_truediv target_fps reference_fps.
End floats.

(** ** Random sampling

    [random.sample(population, k)] raises [ValueError] unless
    [0 <= k <= len(population)], and otherwise returns the elements found at
    [k] distinct positions, in some order.  The random choices are an oracle
    [rng]: at each step it designates a position among the elements not yet
    taken. *)
Fixpoint sample_from (rng : nat → nat) (pool : list Z) (k : nat) : list Z :=
  match k with
  | O => []
  | S k' =>
      let i := (rng k' `mod` length pool)%nat in
      match pool !! i with
      | Some x => x :: sample_from rng (delete i pool) k'
      | None => []
      end
  end.

Definition random_sample (rng : nat → nat) (population : list Z) (k : Z)
  : result (list Z) :=
  if (k <? 0) || (Z.of_nat (length population) <? k) then Raise ValueError
  else Ok (sample_from rng population (Z.to_nat k)).

(** [sorted(l)] on ints *)
Definition sorted (l : list Z) : list Z := merge_sort Z.le l.

(** [generate_frame_numbers] ([screenshot_engine.py], lines 231-256) *)
Definition generate_frame_numbers (rng : nat → nat)
    (total_frames count offset : Z) : result (list Z) :=
  let available_frames := total_frames - offset in
  if available_frames <=? 0 then Ok []
  else if available_frames <=? count then Ok (py_range 0 available_frames)
  else sorted <$> random_sample rng (py_range 0 available_frames) count.

(** The frame numbers of a new run ([take_screenshots_enhanced_with_frames],
    lines 583-599).  An invalid interval is logged as an error and the
    function returns the empty list.
<<
    start_frame = max(0, frame_range_start)
    end_frame = frame_range_end if frame_range_end > 0 else total_frames
    end_frame = min(end_frame, total_frames)
    if start_frame >= end_frame:
        log(...)
        return []
    available_frames = end_frame - start_frame
    if count > available_frames:
        count = available_frames
    frame_numbers = sorted(random.sample(range(start_frame, end_frame), count))
>> *)
Inductive generated : Type :=
  | InvalidRange (start_frame end_frame : Z)
  | FrameNumbers (frame_numbers : list Z).

Definition new_frame_numbers (rng : nat → nat)
    (total_frames count frame_range_start frame_range_end : Z)
  : result generated :=
  let start_frame := Z.max 0 frame_range_start in
  let end_frame :=
    if 0 <? frame_range_end then frame_range_end else total_frames in
  let end_frame := Z.min end_frame total_frames in
  if end_frame <=? start_frame then Ok (InvalidRange start_frame end_frame)
  else
    let available_frames := end_frame - start_frame in
    let count := if available_frames <? count then available_frames else count in
    (λ l, FrameNumbers (sorted l))
      <$> random_sample rng (py_range start_frame end_frame) count.

(** ** The screenshot run ([take_screenshots_enhanced_with_frames]) *)

(** [VideoEntry] ([vse_screenshot_gui.py], lines 31-50), the fields the engine
    reads. *)
Record VideoEntry : Type := {
  name : list ascii;
  offset : Z;
  tolerance : Z;
  video_fps : list ascii;
  screenshot_fps : list ascii;
}.

(** What the engine reads of a VapourSynth clip. *)
Record Clip : Set := { num_frames : Z; fps_num : Z; fps_den : Z }.

(** [f"{aligned_frame:06d}_{original_frame:06d}_{safe_name}.png"] *)
Definition screenshot_filename (aligned_frame original_frame : Z)
    (safe_name : list ascii) : list ascii :=
  format_06d aligned_frame ++ "_"%char :: format_06d original_frame
    ++ "_"%char :: safe_name ++ lit ".png".

Section engine.
Context {F : Type} `{PyFloat F}.
(** The platform's path flavour and the decoder, both external.  The
    decoder is [load_video_clip(video, skip_fps_conversion=...)]: what the
    engine reads of the clip it returns, or the exception it raises. *)
Variable os : os_path.
Variable load_video_clip : VideoEntry → bool → result Clip.

(** [clip.fps_num / clip.fps_den], a true division of two ints (for ints
    below 2^53 in magnitude, where the conversions are exact, this is
    Python's correctly rounded quotient) *)
Definition fps_of_clip (clip : Clip) : result F :=
  n ← float_of_int (fps_num clip);
  d ← float_of_int (fps_den clip);
  float_truediv n d.

(** lines 612-623: the user's setting when it is non-empty and reads as a
    float, the clip's rate otherwise *)
Definition video_fps_of (video : VideoEntry) (clip : Clip) : result F :=
  if bool_decide (video_fps video = []) then fps_of_clip clip
  else match float_of_str (video_fps video) with
       | Ok x => Ok x
       | Raise _ => fps_of_clip clip
       end.

(** line 633: [abs(ratio - 1.0) > 0.01] *)
Definition need_fps_conversion (ratio : F) : bool :=
  float_gt (float_abs (float_sub ratio (float_of_decimal false 1 0)))
           (float_of_decimal false 1 (-2)).

(** lines 663-666 and 702-704: the source frame of an aligned frame *)
Definition base_frame (ratio : F) (video_offset aligned_frame : Z)
  : result Z :=
  if need_fps_conversion ratio then
    a ← float_of_int aligned_frame;
    calculated_frame ← int_of_float (float_mul a ratio);
    Ok (calculated_frame + video_offset)
  else Ok (aligned_frame + video_offset).

(** The body of the loop over aligned frames, up to the frames to save.
    With a positive tolerance the log line reads [frames_to_capture[0]],
    which raises [IndexError] on an empty window.  [Raise] is an exception
    caught by the handler of this loop: the frame is logged and skipped. *)
Definition capture_window (ratio : F) (video : VideoEntry)
    (video_total_frames aligned_frame : Z) : result (list Z) :=
  b ← base_frame ratio (offset video) aligned_frame;
  let window := frames_to_capture b (tolerance video) video_total_frames in
  if bool_decide (0 < tolerance video) && bool_decide (window = [])
  then Raise IndexError
  else Ok window.

(** The (aligned frame, original frame) pairs saved for one video.  Fetching
    a frame of the window, converting it and saving the image are the
    decoder's and the image library's, and are taken to succeed.  (In the
    branch without conversion the saving loop tests
    [original_frame >= video_total_frames] again; the window never contains
    such a frame.) *)
Definition saved_frames (ratio : F) (video : VideoEntry)
    (video_total_frames : Z) (frame_numbers : list Z) : list (Z * Z) :=
  aligned_frame ← frame_numbers;
  match capture_window ratio video video_total_frames aligned_frame with
  | Ok window => (λ original_frame, (aligned_frame, original_frame)) <$> window
  | Raise _ => []
  end.

(** [take_screenshots_enhanced] (lines 425-430), the older entry point, for
    a video of type PAL-to-NTSC: the ratio is the constant [29.97 / 25.0]
    and is always applied.
<<
    ratio = 29.97 / 25.0
    calculated_frame = int(aligned_frame * ratio)
    base_frame = calculated_frame + video.offset
>> *)
Definition pal_to_ntsc_base_frame (video_offset aligned_frame : Z)
  : result Z :=
  ratio ← float_truediv (float_of_decimal false 2997 (-2))
                        (float_of_decimal false 250 (-1));
  a ← float_of_int aligned_frame;
  calculated_frame ← int_of_float (float_mul a ratio);
  Ok (calculated_frame + video_offset).

(** The body of the loop over videos.  [Raise] is an exception caught by
    the handler of that loop: the video is logged as failed and the loop
    continues with the next one. *)
Definition process_video (frame_numbers : list Z) (video : VideoEntry)
  : result (list (list ascii)) :=
  clip ← load_video_clip video true;
  video_fps ← video_fps_of video clip;
  screenshot_fps ← parse_screenshot_fps (screenshot_fps video);
  ratio ← float_truediv video_fps screenshot_fps;
  Ok ((λ p, screenshot_filename p.1 p.2 (sanitize_filename os (name video)))
        <$> saved_frames ratio video (num_frames clip) frame_numbers).

(** The whole function: the frame numbers it returns and, per video, the
    files written or the exception that ended that video. *)
Definition take_screenshots_enhanced_with_frames (rng : nat → nat)
    (videos : list VideoEntry) (count : Z) (frame_numbers : option (list Z))
    (frame_range_start frame_range_end : Z)
  : result (list Z * list (result (list (list ascii)))) :=
  match frame_numbers with
  | Some frame_numbers =>
      Ok (frame_numbers, process_video frame_numbers <$> videos)
  | None =>
      match videos with
      | [] => Ok ([], [])
      | first_video :: _ =>
          match load_video_clip first_video false with
          | Raise _ => Ok ([], [])
          | Ok clip =>
              g ← new_frame_numbers rng (num_frames clip) count
                    frame_range_start frame_range_end;
              match g with
              | InvalidRange _ _ => Ok ([], [])
              | FrameNumbers frame_numbers =>
                  Ok (frame_numbers, process_video frame_numbers <$> videos)
              end
          end
      end
  end.
End engine.

(** ** History ([vse_screenshot_gui.py]) *)

(** An entry of [screenshot_history]: a dict with the keys [name], [frames]
    and [timestamp], and for the entries made by the folder scan also
    [folder] and [source]. *)
Record HistoryEntry : Type := {
  hist_name : list ascii;
  frames : list Z;
  timestamp : list ascii;
  folder : option (list ascii);
  source : option (list ascii);
}.

(** An entry of the project's screenshots directory. *)
Inductive dir_entry : Type :=
  | RegularFile
  | Folder (files : list (list ascii)).

Definition str_of_Z (n : Z) : list ascii :=
  if n <? 0 then "-"%char :: str_of_N (Z.to_N (- n)) else str_of_N (Z.to_N n).

(** [f"{label} ({n}张)"]; the last character is three bytes in UTF-8. *)
Definition history_label (label : list ascii) (n : Z) : list ascii :=
  label ++ lit " (" ++ str_of_Z n
        ++ [ascii_of_N 229; ascii_of_N 188; ascii_of_N 160] ++ lit ")".

(** Lines 596-606: the aligned frame numbers read off the file names.
<<
    frame_numbers = set()
    for filename in os.listdir(folder_path):
        if filename.endswith('.png'):
            parts = filename.split('_')
            if len(parts) >= 2:
                try:
                    aligned_frame = int(parts[0])
                    frame_numbers.add(aligned_frame)
                except ValueError:
                    continue
>> *)
Definition add_frame_of (frame_numbers : gset Z) (filename : list ascii)
  : gset Z :=
  if endswith filename (lit ".png") then
    let parts := split "_" filename in
    if bool_decide (2 ≤ length parts)%nat then
      match py_int (default [] (head parts)) with
      | Ok aligned_frame => {[ aligned_frame ]} ∪ frame_numbers
      | Raise _ => frame_numbers
      end
    else frame_numbers
  else frame_numbers.

Definition folder_frame_numbers (listing : list (list ascii)) : gset Z :=
  foldl add_frame_of ∅ listing.

(** Lines 584-621: the body of the loop over the entries of the screenshots
    directory. *)
Definition scan_folder (screenshot_history : list HistoryEntry)
    (entry : list ascii * dir_entry) : list HistoryEntry :=
  let folder_name := entry.1 in
  match entry.2 with
  | RegularFile => screenshot_history
  | Folder listing =>
      let already_exists :=
        existsb (λ h, bool_decide (folder h = Some folder_name))
                screenshot_history in
      if already_exists then screenshot_history
      else
        let frame_numbers := folder_frame_numbers listing in
        if bool_decide (frame_numbers = ∅) then screenshot_history
        else
          let sorted_frames := sorted (elements frame_numbers) in
          screenshot_history ++
            [ {| hist_name :=
                   history_label folder_name (Z.of_nat (length sorted_frames));
                 frames := sorted_frames;
                 timestamp := folder_name;
                 folder := Some folder_name;
                 source := Some (lit "folder") |} ]
  end.

(** [scan_screenshot_folders] (lines 571-624), given the listing of the
    project's screenshots directory: [None] when there is no current project
    or the directory does not exist. *)
Definition scan_screenshot_folders
    (screenshots_dir : option (list (list ascii * dir_entry)))
    (screenshot_history : list HistoryEntry) : list HistoryEntry :=
  match screenshots_dir with
  | None => screenshot_history
  | Some entries => foldl scan_folder screenshot_history entries
  end.

(** The state [start_screenshot] works on: the history and the screenshots
    directory. *)
Record AppState : Type := {
  screenshot_history : list HistoryEntry;
  screenshots_dir : list (list ascii * dir_entry);
}.

Section gui.
Context {F : Type} `{PyFloat F}.
Variable os : os_path.
Variable load_video_clip : VideoEntry → bool → result Clip.

(** [start_screenshot] (lines 1344-1445) for a new frame set: the run
    writes into the fresh folder [timestamp], and its frame numbers are
    appended to the history (lines 1419-1425).  An exception of the run is
    caught and reported (lines 1443-1445); the folder exists by then.
<<
  self.screenshot_history.append({
      'name': history_name,
      'frames': actual_frames,
      'timestamp': timestamp
  })
>> *)
Definition start_screenshot (rng : nat → nat) (st : AppState)
    (selected_videos : list VideoEntry) (count : Z) (now : list ascii)
    (frame_range_start frame_range_end : Z) : AppState :=
  match take_screenshots_enhanced_with_frames os load_video_clip rng
          selected_videos count None frame_range_start frame_range_end with
  | Ok (actual_frames, outcomes) =>
      let written :=
        o ← outcomes; match o with Ok files => files | Raise _ => [] end in
      {| screenshot_history :=
           screenshot_history st ++
             [ {| hist_name := history_label now count;
                  frames := actual_frames;
                  timestamp := now;
                  folder := None;
                  source := None |} ];
         screenshots_dir := screenshots_dir st ++ [(now, Folder written)] |}
  | Raise _ =>
      {| screenshot_history := screenshot_history st;
         screenshots_dir := screenshots_dir st ++ [(now, Folder [])] |}
  end.

(** [load_project] (lines 248-252) as far as the history goes: the stored
    history is read, then the folders are scanned. *)
Definition load_project (st : AppState) : AppState :=
  {| screenshot_history :=
       scan_screenshot_folders (Some (screenshots_dir st))
                               (screenshot_history st);
     screenshots_dir := screenshots_dir st |}.
End gui.

(** ** The specification's alignment formula

    [AlignmentModel.map] as the specification writes it, over exact rationals:
    [floor(referenceFrame * sourceFps / referenceFps) + offset]. *)
Definition AlignmentModel_map (referenceFrame : Z) (sourceFps referenceFps : Q)
    (offsetFrames : Z) : Z :=
  Qfloor (inject_Z referenceFrame * sourceFps / referenceFps) + offsetFrames.

(** The ratio of a video from its two settings, as [process_video] computes
    it when the user's video rate reads as a float. *)
Definition ratio_of_settings {F : Type} `{PyFloat F}
    (video_fps screenshot_fps : list ascii) : result F :=
  vf ← float_of_str video_fps;
  sf ← parse_screenshot_fps screenshot_fps;
  float_truediv vf sf.

(** The source frame computed from the two settings. *)
Definition base_frame_of_settings {F : Type} `{PyFloat F}
    (video_fps screenshot_fps : list ascii) (video_offset aligned_frame : Z)
  : result Z :=
  ratio ← ratio_of_settings (F:=F) video_fps screenshot_fps;
  base_frame ratio video_offset aligned_frame.

(** [int(aligned_frame * ratio)], the calculated frame of the conversion
    branch (line 665). *)
Definition calculated_frame_of {F : Type} `{PyFloat F} (ratio : F)
    (aligned_frame : Z) : result Z :=
  a ← float_of_int aligned_frame;
  int_of_float (float_mul a ratio).

(** The video of the specification's scenario A. *)
Definition scenario_A_video : VideoEntry :=
  {| name := lit "VerA.mkv"; offset := 332; tolerance := 3;
     video_fps := lit "29.97"; screenshot_fps := lit "25" |}.

(** Sample decoder and videos for the clock-rate examples: every clip has
    1000 frames at 25 fps. *)
Definition sample_decoder (video : VideoEntry) (skip_fps_conversion : bool)
  : result Clip :=
  Ok {| num_frames := 1000; fps_num := 25; fps_den := 1 |}.

Definition video_with_rates (video_fps screenshot_fps : list ascii)
  : VideoEntry :=
  {| name := lit "VerA.mkv"; offset := 20; tolerance := 0;
     video_fps := video_fps; screenshot_fps := screenshot_fps |}.


(** Membership in [illegal_chars], as a test. *)
Definition is_illegal (c : ascii) : bool := existsb (Ascii.eqb c) illegal_chars.

(** A path separator of the platform. *)
Definition is_sep (os : os_path) (c : ascii) : bool :=
  Ascii.eqb c (sep os)
  || match altsep os with Some a => Ascii.eqb c a | None => false end.

(** The bytes of one character: a lead byte and its continuation bytes. *)
Definition char_shape (ch : list ascii) : Prop :=
  ∃ c t, ch = c :: t
         ∧ is_continuation c = false
         ∧ Forall (λ x, is_continuation x = true) t.

(** The ASCII character read in place of a character. *)
Definition read_char (ch : list ascii) : ascii :=
  default "?"%char (ascii_of_char ch).

(** The number written by a run of decimal digits of any script. *)
Definition decimal_value (ds : list (list ascii)) : N :=
  fold_left (λ acc ch, 10 * acc + default 0 (char_decimal ch))%N ds 0%N.

(** What ends a run of digits for [take_digits]: the end of the string, or a
    character that is neither a digit nor an underscore. *)
Definition stops (r : list ascii) : Prop :=
  match r with
  | [] => True
  | c :: _ => is_digit c = false ∧ c ≠ "_"%char
  end.

(** A folder the scan leaves alone: not a folder at all, already the
    [folder] of an entry of the history, or without readable frame number. *)
Definition settled (history : list HistoryEntry)
    (entry : list ascii * dir_entry) : Prop :=
  match entry.2 with
  | RegularFile => True
  | Folder listing =>
      existsb (λ h, bool_decide (folder h = Some entry.1)) history = true
      ∨ folder_frame_numbers listing = ∅
  end.

(** A first session: one new run of two frames on one video, at time
    [20240101_120000], from an empty history; then the project is loaded
    again, which scans the screenshots directory. *)
Definition first_session : AppState :=
  start_screenshot (F:=float) ntpath sample_decoder (λ _, O)
    {| screenshot_history := []; screenshots_dir := [] |}
    [video_with_rates (lit "25.00") (lit "25.00")] 2
    (lit "20240101_120000") 0 0.

Definition second_session : AppState := load_project first_session.

(** The order in which the screenshots of one video are taken: by aligned
    frame, then by original frame. *)
Definition task_lt (p q : Z * Z) : Prop :=
  p.1 < q.1 ∨ (p.1 = q.1 ∧ p.2 < q.2).

(** What the folder scan makes of a folder of the screenshots directory. *)
Definition scanned_entry (folder_name : list ascii)
    (listing : list (list ascii)) : HistoryEntry :=
  let sorted_frames := sorted (elements (folder_frame_numbers listing)) in
  {| hist_name := history_label folder_name (Z.of_nat (length sorted_frames));
     frames := sorted_frames;
     timestamp := folder_name;
     folder := Some folder_name;
     source := Some (lit "folder") |}.

(** The choice of a history entry in [start_screenshot] (lines 1366-1376):
    the frames of the first entry with the chosen name.
<<
    for history in self.screenshot_history:
        if history['name'] == use_history:
            frame_numbers = history['frames']
            break
>> *)
Fixpoint lookup_history (screenshot_history : list HistoryEntry)
    (use_history : list ascii) : option (list Z) :=
  match screenshot_history with
  | [] => None
  | history :: rest =>
      if bool_decide (hist_name history = use_history)
      then Some (frames history)
      else lookup_history rest use_history
  end.

(** The files of a run: what each video wrote, failed videos apart. *)
Definition written_files (outcomes : list (result (list (list ascii))))
  : list (list ascii) :=
  o ← outcomes; match o with Ok files => files | Raise _ => [] end.

Section gui_selection.
Context {F : Type} `{PyFloat F}.
Variable os : os_path.
Variable load_video_clip : VideoEntry → bool → result Clip.

(** [start_screenshot] (lines 1344-1445) with the choice of the history
    box.  Without a selected video nothing happens (lines 1359-1361).  The
    entry of the box for a new frame set, or a name that no entry of the
    history has, leads to a new run; otherwise the frames of the chosen entry
    are used again (lines 1428-1433): the run writes into the fresh folder,
    and the history is left as it is. *)
Definition start_screenshot_with (rng : nat → nat) (st : AppState)
    (selected_videos : list VideoEntry) (use_history : list ascii)
    (count : Z) (now : list ascii) (frame_range_start frame_range_end : Z)
  : AppState :=
  match selected_videos with
  | [] => st
  | _ :: _ =>
      let frame_numbers :=
        if bool_decide (use_history = lit "新建") then None
        else lookup_history (screenshot_history st) use_history in
      match frame_numbers with
      | None =>
          start_screenshot os load_video_clip rng st selected_videos count now
            frame_range_start frame_range_end
      | Some frame_numbers =>
          match take_screenshots_enhanced_with_frames os load_video_clip rng
                  selected_videos (Z.of_nat (length frame_numbers))
                  (Some frame_numbers) frame_range_start frame_range_end with
          | Ok (_, outcomes) =>
              {| screenshot_history := screenshot_history st;
                 screenshots_dir :=
                   screenshots_dir st ++ [(now, Folder (written_files outcomes))] |}
          | Raise _ =>
              {| screenshot_history := screenshot_history st;
                 screenshots_dir := screenshots_dir st ++ [(now, Folder [])] |}
          end
      end
  end.
End gui_selection.

(** [take_screenshots] (lines 57-104), the oldest entry point, for one
    video: the frame numbers it generates and, for each one that passes the
    range test, the frame it asks the decoder for.
<<
    frame_numbers = generate_frame_numbers(total_frames, count, video.offset)
    for j, frame_num in enumerate(frame_numbers):
        actual_frame = frame_num + video.offset
        if actual_frame >= total_frames:
            continue
        frame = clip.get_frame(actual_frame)
>> *)
Definition take_screenshots_requests (rng : nat → nat)
    (total_frames count video_offset : Z) : result (list (Z * Z)) :=
  frame_numbers ← generate_frame_numbers rng total_frames count video_offset;
  Ok (omap (M:=list)
        (λ frame_num,
           let actual_frame := frame_num + video_offset in
           if total_frames <=? actual_frame then None
           else Some (frame_num, actual_frame))
        frame_numbers).

(** * Properties *)

(** ** Intervals of consecutive integers *)

Lemma filter_seqZ_interval (a b m : Z) (n : nat) :
  filter (λ k, a ≤ k ∧ k < b) (seqZ m (Z.of_nat n))
  = seqZ (Z.max a m) (Z.min b (m + Z.of_nat n) - Z.max a m).
Proof.
  revert m. induction n as [|n IH]; intros m.
  - rewrite (seqZ_nil m) by lia. rewrite seqZ_nil by lia. reflexivity.
  - rewrite (seqZ_cons m) by lia.
    replace (Z.pred (Z.of_nat (S n))) with (Z.of_nat n) by lia.
    rewrite filter_cons. rewrite IH.
    destruct (decide (a ≤ m ∧ m < b)) as [Hin|Hout].
    + rewrite (seqZ_cons (Z.max a m)) by lia.
      f_equal; [lia|]. f_equal; lia.
    + destruct (Z_le_gt_dec b m).
      * rewrite !seqZ_nil by lia. reflexivity.
      * f_equal; lia.
Qed.

Lemma seqZ_strongly_sorted (m len : Z) : StronglySorted Z.lt (seqZ m len).
Proof.
  destruct (Z_le_gt_dec len 0) as [Hle|Hgt].
  - rewrite seqZ_nil by lia. constructor.
  - rewrite <- (Z2Nat.id len) by lia.
    generalize (Z.to_nat len) as n. clear Hgt. intros n. revert m.
    induction n as [|n IH]; intros m.
    + rewrite seqZ_nil by lia. constructor.
    + rewrite seqZ_cons by lia.
      replace (Z.pred (Z.of_nat (S n))) with (Z.of_nat n) by lia.
      constructor; [apply IH|].
      apply Forall_seqZ. intros; lia.
Qed.

Lemma frames_to_capture_interval (f t total : Z) :
  0 ≤ t →
  frames_to_capture f t total
  = seqZ (Z.max 0 (f - t))
         (Z.min total (f + t + 1) - Z.max 0 (f - t)).
Proof.
  intros Ht. unfold frames_to_capture, py_range.
  rewrite fmap_add_seqZ.
  replace (t + 1 - - t) with (Z.of_nat (Z.to_nat (2 * t + 1))) by lia.
  rewrite filter_seqZ_interval.
  f_equal; lia.
Qed.

(** C2. For every source frame [f], tolerance [t >= 0] and frame count
    [total >= 0], the tolerance window is exactly the list of the integers of
    the clipped interval [[max(0, f-t), min(total, f+t+1))]: it has
    [min(2t+1, size of the interval)] elements, is strictly ascending (so
    sorted and duplicate-free), and for [t = 0] with [f] in the domain it is
    [[f]]. *)
Theorem tolerance_window_exact (f t total : Z) :
  0 ≤ t → 0 ≤ total →
  let lo := Z.max 0 (f - t) in
  let hi := Z.min total (f + t + 1) in
  frames_to_capture f t total = seqZ lo (hi - lo)
  ∧ (∀ k, k ∈ frames_to_capture f t total ↔ lo ≤ k < hi)
  ∧ Z.of_nat (length (frames_to_capture f t total))
    = Z.min (2 * t + 1) (Z.max 0 (hi - lo))
  ∧ StronglySorted Z.lt (frames_to_capture f t total)
  ∧ NoDup (frames_to_capture f t total)
  ∧ (t = 0 → 0 ≤ f < total → frames_to_capture f t total = [f]).
Proof.
  intros Ht Htot lo hi.
  pose proof (frames_to_capture_interval f t total Ht) as E.
  fold lo hi in E. rewrite E.
  repeat split.
  - rewrite elem_of_seqZ in H. lia.
  - rewrite elem_of_seqZ in H. lia.
  - intros [? ?]. apply elem_of_seqZ. lia.
  - rewrite length_seqZ. subst lo hi. lia.
  - apply seqZ_strongly_sorted.
  - apply NoDup_seqZ.
  - intros -> Hf. subst lo hi.
    replace (Z.max 0 (f - 0)) with f by lia.
    replace (Z.min total (f + 0 + 1) - f) with 1 by lia.
    reflexivity.
Qed.

Lemma tolerance_window_exact_witness :
  frames_to_capture 2 3 5 = seqZ 0 5
  ∧ Z.of_nat (length (frames_to_capture 2 3 5)) = Z.min 7 5.
Proof.
  destruct (tolerance_window_exact 2 3 5 ltac:(lia) ltac:(lia))
    as (E & _ & L & _).
  split; [exact E | exact L].
Defined.

(** ** Alignment in exact arithmetic *)

Lemma x_one_eq : (inject_Z (Z.of_N 1) * Qpower (10 # 1) 0 == 1)%Q.
Proof. reflexivity. Qed.

Lemma x_hundredth_eq : (inject_Z (Z.of_N 1) * Qpower (10 # 1) (-2) == 1 # 100)%Q.
Proof. reflexivity. Qed.

Lemma need_fps_conversion_exact (q : Q) :
  need_fps_conversion (Fin q) = true ↔ (1 # 100 < Qabs (q - 1))%Q.
Proof.
  unfold need_fps_conversion. cbn [float_gt float_abs float_sub float_of_decimal
    xfloat_PyFloat x_gt x_abs x_sub x_of_decimal].
  rewrite negb_true_iff, <- not_true_iff_false, Qle_bool_iff.
  rewrite x_one_eq, x_hundredth_eq.
  split; [apply Qnot_le_lt | apply Qlt_not_le].
Qed.

Lemma need_fps_conversion_exact_false (q : Q) :
  need_fps_conversion (Fin q) = false ↔ (Qabs (q - 1) <= 1 # 100)%Q.
Proof.
  rewrite <- not_true_iff_false, need_fps_conversion_exact.
  split; [apply Qnot_lt_le | apply Qle_not_lt].
Qed.

(** [int()] of a non-negative exact value is its floor. *)
Lemma x_to_int_nonneg (p : Q) : (0 <= p)%Q → x_to_int (Fin p) = Ok (Qfloor p).
Proof.
  intros Hp. destruct p as [n d]. unfold Qle in Hp. simpl in *.
  rewrite Z.quot_div_nonneg by lia. reflexivity.
Qed.

Lemma base_frame_exact_conversion (q : Q) (off r : Z) :
  0 ≤ r → (0 <= q)%Q → need_fps_conversion (Fin q) = true →
  base_frame (Fin q) off r = Ok (Qfloor (inject_Z r * q) + off).
Proof.
  intros Hr Hq Hneed. unfold base_frame. rewrite Hneed.
  cbn [float_of_int float_mul int_of_float xfloat_PyFloat x_mul mbind
       result_bind].
  rewrite x_to_int_nonneg; [reflexivity|].
  apply Qmult_le_0_compat; [|exact Hq].
  unfold Qle; simpl; lia.
Qed.

Lemma base_frame_no_conversion {F : Type} `{PyFloat F} (ratio : F) (off r : Z) :
  need_fps_conversion ratio = false → base_frame ratio off r = Ok (r + off).
Proof. intros Hneed. unfold base_frame. rewrite Hneed. reflexivity. Qed.

Lemma x_truediv_pos (vf sf : Q) :
  (0 < sf)%Q → x_truediv (Fin vf) (Fin sf) = Ok (Fin (vf / sf)).
Proof.
  intros Hsf. unfold x_truediv, Qzerob.
  destruct sf as [n d]. unfold Qlt in Hsf. simpl in *.
  destruct (Z.eqb_spec n 0); [lia | reflexivity].
Qed.

(** The mapping in an arithmetic without rounding.  For every reference
    frame [r >= 0], source and screenshot rates [vf, sf > 0] and integer
    offset: the ratio [vf / sf] is defined, and the source frame is
    [floor(r * vf / sf) + offset] exactly when the ratio differs from 1 by
    more than 0.01; when it is within 0.01 of 1 the source frame is
    [r + offset].  Python computes in binary64, where the first part holds up
    to the rounding of the quotient and of the product (see
    [alignment_map_binary64]). *)
Lemma alignment_map_exact (r off : Z) (vf sf : Q) :
  0 ≤ r → (0 < vf)%Q → (0 < sf)%Q →
  float_truediv (Fin vf) (Fin sf) = Ok (Fin (vf / sf))
  ∧ (need_fps_conversion (Fin (vf / sf)) = true
     ↔ (1 # 100 < Qabs (vf / sf - 1))%Q)
  ∧ base_frame (Fin (vf / sf)) off r
    = Ok (if need_fps_conversion (Fin (vf / sf))
          then AlignmentModel_map r vf sf off
          else r + off).
Proof.
  intros Hr Hvf Hsf. split; [|split].
  - apply x_truediv_pos, Hsf.
  - apply need_fps_conversion_exact.
  - destruct (need_fps_conversion (Fin (vf / sf))) eqn:Hneed.
    + rewrite base_frame_exact_conversion; [|done| |done].
      * unfold AlignmentModel_map. do 2 f_equal.
        apply Qfloor_comp. unfold Qdiv. ring.
      * apply Qlt_le_weak, Qlt_shift_div_l; [exact Hsf|].
        rewrite Qmult_0_l. exact Hvf.
    + apply base_frame_no_conversion, Hneed.
Qed.

Lemma alignment_map_exact_witness :
  base_frame (Fin ((2997 # 100) / (25 # 1))) 332 52986
  = Ok (if need_fps_conversion (Fin ((2997 # 100) / (25 # 1)))
        then AlignmentModel_map 52986 (2997 # 100) (25 # 1) 332
        else 52986 + 332).
Proof.
  refine (proj2 (proj2 (alignment_map_exact 52986 332 (2997 # 100) (25 # 1)
                          _ _ _))).
  - lia.
  - reflexivity.
  - reflexivity.
Defined.


(** In binary64 the conversion branch truncates the rounded product of a
    rounded quotient, which can fall one below the exact floor: at 29.97 fps
    against 25 fps, reference frame 2500 maps to 2996, while
    [2500 * 29.97 / 25] is exactly 2997. *)
Remark binary64_rounding_example :
  base_frame_of_settings (F:=float) (lit "29.97") (lit "25") 0 2500 = Ok 2996
  ∧ base_frame_of_settings (F:=xfloat) (lit "29.97") (lit "25") 0 2500
    = Ok 2997
  ∧ AlignmentModel_map 2500 (2997 # 100) (25 # 1) 0 = 2997.
Proof. repeat split; vm_compute; reflexivity. Qed.

(** ** Alignment in binary64

    Python multiplies and truncates in IEEE binary64.  The product of the
    frame number and the ratio is formed exactly and then rounded to 53
    bits, to nearest with ties to even ([SpecFloat.binary_round_aux]); the
    lemmas below follow that rounding far enough to bracket the truncated
    result. *)

Lemma digits2_pos_bounds (p : positive) :
  2 ^ (Z.pos (digits2_pos p) - 1) ≤ Z.pos p < 2 ^ Z.pos (digits2_pos p).
Proof.
  induction p as [p IH|p IH|]; cbn [digits2_pos].
  - rewrite Pos2Z.inj_succ.
    replace (Z.succ (Z.pos (digits2_pos p)) - 1)
      with (Z.succ (Z.pos (digits2_pos p) - 1)) by lia.
    rewrite !Z.pow_succ_r by lia. lia.
  - rewrite Pos2Z.inj_succ.
    replace (Z.succ (Z.pos (digits2_pos p)) - 1)
      with (Z.succ (Z.pos (digits2_pos p) - 1)) by lia.
    rewrite !Z.pow_succ_r by lia. lia.
  - simpl. lia.
Qed.

Lemma shr_1_div2 (mrs : shr_record) :
  0 ≤ shr_m mrs → shr_m (shr_1 mrs) = shr_m mrs / 2.
Proof.
  destruct mrs as [m r s]. cbn [shr_m shr_1]. intros Hm.
  destruct m as [|[p|p|]|p]; cbn [shr_m]; try lia.
  - reflexivity.
  - apply (Z.div_unique _ _ _ 1); lia.
  - apply (Z.div_unique _ _ _ 0); lia.
  - reflexivity.
Qed.

Lemma pow2_xO (p : positive) : 2 ^ Z.pos p~0 = 2 ^ Z.pos p * 2 ^ Z.pos p.
Proof.
  replace (Z.pos p~0) with (Z.pos p + Z.pos p) by lia.
  apply Z.pow_add_r; lia.
Qed.

Lemma pow2_xI (p : positive) :
  2 ^ Z.pos p~1 = 2 * (2 ^ Z.pos p * 2 ^ Z.pos p).
Proof.
  replace (Z.pos p~1) with (Z.succ (Z.pos p + Z.pos p)) by lia.
  rewrite Z.pow_succ_r, Z.pow_add_r by lia. reflexivity.
Qed.

Lemma iter_shr_1_div (p : positive) :
  ∀ mrs, 0 ≤ shr_m mrs →
    shr_m (SpecFloat.iter_pos shr_1 p mrs) = shr_m mrs / 2 ^ Z.pos p.
Proof.
  assert (Hnn : ∀ q mrs, (∀ x, 0 ≤ shr_m x →
              shr_m (SpecFloat.iter_pos shr_1 q x) = shr_m x / 2 ^ Z.pos q) →
            0 ≤ shr_m mrs → 0 ≤ shr_m (SpecFloat.iter_pos shr_1 q mrs)).
  { intros q mrs Hq Hm. rewrite Hq by exact Hm.
    apply Z.div_pos; [exact Hm | lia]. }
  induction p as [p IH|p IH|]; intros mrs Hm; cbn [SpecFloat.iter_pos].
  - assert (H1 : 0 ≤ shr_m (shr_1 mrs))
      by (rewrite shr_1_div2 by exact Hm; apply Z.div_pos; lia).
    rewrite IH by (apply Hnn; [exact IH | exact H1]).
    rewrite IH by exact H1. rewrite shr_1_div2 by exact Hm.
    rewrite !Z.div_div by lia. rewrite pow2_xI. reflexivity.
  - rewrite IH by (apply Hnn; [exact IH | exact Hm]).
    rewrite IH by exact Hm.
    rewrite !Z.div_div by lia. rewrite pow2_xO. reflexivity.
  - rewrite shr_1_div2 by exact Hm. reflexivity.
Qed.

Lemma shr_exact_m (m e n : Z) :
  0 ≤ m →
  shr_m (shr (shr_record_of_loc m loc_Exact) e n).1
    = (if 0 <? n then m / 2 ^ n else m)
  ∧ (shr (shr_record_of_loc m loc_Exact) e n).2
    = (if 0 <? n then e + n else e).
Proof.
  intros Hm. unfold shr. destruct n as [|p|p]; cbn [fst snd]; try done.
  split; [|reflexivity]. apply iter_shr_1_div. exact Hm.
Qed.

Lemma round_nearest_even_cases (m : Z) (l : location) :
  round_nearest_even m l = m ∨ round_nearest_even m l = m + 1.
Proof.
  destruct l as [|[| |]]; cbn [round_nearest_even]; auto.
  destruct (Z.even m); auto.
Qed.

Lemma fexp64 (z : Z) : fexp prec emax z = Z.max (z - 53) (-1074).
Proof. reflexivity. Qed.

Lemma shiftl_trunc (m e : Z) :
  (if 0 <=? e then m * 2 ^ e else m / 2 ^ (- e)) = Z.shiftl m e.
Proof.
  destruct (Z.leb_spec 0 e).
  - symmetry. apply Z.shiftl_mul_pow2. lia.
  - symmetry. apply Z.shiftl_div_pow2. lia.
Qed.

Lemma pow2_pos (z : Z) : 0 ≤ z → 0 < 2 ^ z.
Proof. intros. apply Z.pow_pos_nonneg; lia. Qed.

Lemma shiftl_lt_digits (m : positive) (e : Z) :
  Z.shiftl (Z.pos m) e < 2 ^ 52 → Z.pos (digits2_pos m) + e ≤ 52.
Proof.
  intros Hx. pose proof (digits2_pos_bounds m) as [Hlo _].
  set (d := Z.pos (digits2_pos m)) in *.
  destruct (Z_le_gt_dec (d + e) 52) as [|Hgt]; [assumption|exfalso].
  assert (Hp : 2 ^ 52 ≤ 2 ^ (d - 1 + e)) by (apply Z.pow_le_mono_r; lia).
  rewrite <- shiftl_trunc in Hx. destruct (Z.leb_spec 0 e) as [He|He].
  - assert (2 ^ (d - 1 + e) ≤ Z.pos m * 2 ^ e); [|lia].
    rewrite Z.pow_add_r by lia.
    apply Z.mul_le_mono_nonneg_r; [|exact Hlo]. pose proof (pow2_pos e He). lia.
  - assert (2 ^ (d - 1 + e) ≤ Z.pos m / 2 ^ (- e)); [|lia].
    apply Z.div_le_lower_bound; [apply pow2_pos; lia|].
    rewrite <- Z.pow_add_r by lia.
    replace (- e + (d - 1 + e)) with (d - 1) by lia. exact Hlo.
Qed.

Lemma Zdigits2_le (M t : Z) : 0 ≤ M → 0 ≤ t → M < 2 ^ t → Zdigits2 M ≤ t.
Proof.
  intros HM Ht Hlt. destruct M as [|p|p]; cbn [Zdigits2]; [lia| |lia].
  pose proof (digits2_pos_bounds p) as [Hlo _].
  destruct (Z_le_gt_dec (Z.pos (digits2_pos p)) t) as [|Hgt]; [assumption|].
  exfalso.
  assert (2 ^ t ≤ 2 ^ (Z.pos (digits2_pos p) - 1))
    by (apply Z.pow_le_mono_r; lia).
  lia.
Qed.

Lemma div_succ_le (a b : Z) : 0 < b → (a + 1) / b ≤ a / b + 1.
Proof.
  intros Hb. rewrite <- (Z.div_add a 1 b) by lia.
  apply Z.div_le_mono; lia.
Qed.

Lemma shr_nonpos (mrs : shr_record) (e n : Z) :
  n ≤ 0 → shr mrs e n = (mrs, e).
Proof. intros Hn. unfold shr. destruct n; [reflexivity | lia | reflexivity]. Qed.

Lemma shiftl_pos_nonneg (m : positive) (e : Z) : 0 ≤ Z.shiftl (Z.pos m) e.
Proof. apply Z.shiftl_nonneg. lia. Qed.

Lemma binary_round_aux_trunc (m : positive) (e : Z) :
  Z.shiftl (Z.pos m) e < 2 ^ 52 →
  (binary_round_aux prec emax false (Z.pos m) e loc_Exact = S754_zero false
   ∧ Z.shiftl (Z.pos m) e = 0)
  ∨ ∃ m' e',
      binary_round_aux prec emax false (Z.pos m) e loc_Exact
      = S754_finite false m' e'
      ∧ Z.shiftl (Z.pos m) e ≤ Z.shiftl (Z.pos m') e'
        ≤ Z.shiftl (Z.pos m) e + 1.
Proof.
  intros Hx. pose proof (shiftl_lt_digits m e Hx) as Hd.
  pose proof (shiftl_pos_nonneg m e) as Hx0.
  unfold binary_round_aux, shr_fexp. cbn [Zdigits2]. rewrite fexp64.
  set (d := Z.pos (digits2_pos m)) in *.
  assert (Hd1 : 1 ≤ d) by (unfold d; lia).
  set (n := Z.max (d + e - 53) (-1074) - e).
  (* the value read off the result, in all cases *)
  assert (Hfinal : ∀ mrs2 e2,
            0 ≤ shr_m mrs2 → e2 ≤ 971 →
            Z.shiftl (Z.pos m) e ≤ Z.shiftl (shr_m mrs2) e2
              ≤ Z.shiftl (Z.pos m) e + 1 →
            match shr_m mrs2 with
            | 0 => S754_zero false
            | Z.pos m0 =>
                if e2 <=? emax - prec then S754_finite false m0 e2
                else S754_infinity false
            | Z.neg _ => S754_nan
            end = S754_zero false ∧ Z.shiftl (Z.pos m) e = 0
            ∨ ∃ m' e',
                match shr_m mrs2 with
                | 0 => S754_zero false
                | Z.pos m0 =>
                    if e2 <=? emax - prec then S754_finite false m0 e2
                    else S754_infinity false
                | Z.neg _ => S754_nan
                end = S754_finite false m' e'
                ∧ Z.shiftl (Z.pos m) e ≤ Z.shiftl (Z.pos m') e'
                  ≤ Z.shiftl (Z.pos m) e + 1).
  { intros mrs2 e2 Hnn He2 Hv. destruct (shr_m mrs2) as [|m2|m2]; [| |lia].
    - left. split; [reflexivity|]. rewrite Z.shiftl_0_l in Hv. lia.
    - right. exists m2, e2. split; [|exact Hv].
      change (emax - prec) with 971.
      destruct (Z.leb_spec e2 971); [reflexivity | lia]. }
  destruct (Z_le_gt_dec n 0) as [Hn|Hn].
  - (* no bit is shifted out: the product is representable *)
    rewrite (shr_nonpos _ e n Hn).
    cbn [shr_record_of_loc loc_of_shr_record shr_m round_nearest_even
         Zdigits2].
    rewrite fexp64. fold d. fold n. rewrite (shr_nonpos _ e n Hn).
    apply Hfinal; cbn [shr_record_of_loc shr_m]; lia.
  - destruct (shr_exact_m (Z.pos m) e n ltac:(lia)) as [Hm1 He1].
    destruct (shr (shr_record_of_loc (Z.pos m) loc_Exact) e n) as [mrs1 e1].
    cbn [fst snd] in Hm1, He1.
    destruct (Z.ltb_spec 0 n) as [_|]; [|lia].
    set (Fl := shr_m mrs1) in *.
    set (M1 := round_nearest_even Fl (loc_of_shr_record mrs1)).
    assert (HFl : 0 ≤ Fl)
      by (rewrite Hm1; apply Z.div_pos; [lia | apply pow2_pos; lia]).
    assert (HM1 : Fl ≤ M1 ≤ Fl + 1)
      by (unfold M1;
          destruct (round_nearest_even_cases Fl (loc_of_shr_record mrs1));
          lia).
    assert (He1' : e1 ≤ -1) by lia.
    set (k := - e1).
    assert (Hfloor : Z.shiftl (Z.pos m) e = Fl / 2 ^ k).
    { rewrite Z.shiftl_div_pow2 by lia. rewrite Hm1.
      rewrite Z.div_div by (try apply pow2_pos; lia).
      rewrite <- Z.pow_add_r by lia. f_equal. f_equal. lia. }
    assert (HFlt : Fl < 2 ^ k * 2 ^ 52).
    { destruct (Z_lt_ge_dec Fl (2 ^ k * 2 ^ 52)) as [|Hge]; [assumption|].
      exfalso. apply Z.ge_le in Hge.
      apply Z.div_le_lower_bound in Hge; [lia | apply pow2_pos; lia]. }
    assert (HM1d : Zdigits2 M1 ≤ k + 53).
    { apply Zdigits2_le; [lia | lia |].
      rewrite Z.pow_add_r by lia. change (2 ^ 53) with (2 * 2 ^ 52).
      pose proof (pow2_pos k ltac:(lia)). lia. }
    rewrite fexp64.
    set (n2 := Z.max (Zdigits2 M1 + e1 - 53) (-1074) - e1).
    assert (Hbr : Fl / 2 ^ k ≤ M1 / 2 ^ k ≤ Fl / 2 ^ k + 1).
    { pose proof (pow2_pos k ltac:(lia)) as Hk. split.
      - apply Z.div_le_mono; lia.
      - transitivity ((Fl + 1) / 2 ^ k);
          [apply Z.div_le_mono; lia | apply div_succ_le; lia]. }
    destruct (Z_le_gt_dec n2 0) as [Hn2|Hn2].
    + rewrite (shr_nonpos _ e1 n2 Hn2).
      apply Hfinal; cbn [shr_record_of_loc shr_m]; [lia | lia |].
      rewrite Hfloor, Z.shiftl_div_pow2 by lia. fold k. exact Hbr.
    + destruct (shr_exact_m M1 e1 n2 ltac:(lia)) as [Hm2 He2].
      destruct (shr (shr_record_of_loc M1 loc_Exact) e1 n2) as [mrs2 e2].
      cbn [fst snd] in Hm2, He2.
      destruct (Z.ltb_spec 0 n2) as [_|]; [|lia].
      apply Hfinal.
      * rewrite Hm2. apply Z.div_pos; [lia | apply pow2_pos; lia].
      * lia.
      * rewrite Hfloor, Z.shiftl_div_pow2 by lia. rewrite Hm2.
        rewrite Z.div_div by (try apply pow2_pos; lia).
        rewrite <- Z.pow_add_r by lia.
        replace (n2 + - e2) with k by lia. exact Hbr.
Qed.

Lemma binary_round_aux_exact (s : bool) (m : positive) (e : Z) :
  Z.max (Z.pos (digits2_pos m) + e - 53) (-1074) - e ≤ 0 → e ≤ 971 →
  binary_round_aux prec emax s (Z.pos m) e loc_Exact = S754_finite s m e.
Proof.
  intros Hn He. unfold binary_round_aux, shr_fexp. cbn [Zdigits2].
  rewrite fexp64, (shr_nonpos _ e _ Hn).
  cbn [shr_record_of_loc loc_of_shr_record shr_m round_nearest_even Zdigits2].
  rewrite fexp64, (shr_nonpos _ e _ Hn). cbn [shr_record_of_loc shr_m].
  change (emax - prec) with 971.
  destruct (Z.leb_spec e 971); [reflexivity | lia].
Qed.

Lemma iter_xO_value (p s : positive) :
  Z.pos (Pos.iter xO p s) = Z.pos p * 2 ^ Z.pos s.
Proof.
  induction s as [|s IH] using Pos.peano_ind.
  - simpl. lia.
  - rewrite Pos.iter_succ, Pos2Z.inj_xO, IH, Pos2Z.inj_succ, Z.pow_succ_r by lia.
    lia.
Qed.

Lemma iter_xO_digits (p s : positive) :
  Z.pos (digits2_pos (Pos.iter xO p s)) = Z.pos (digits2_pos p) + Z.pos s.
Proof.
  induction s as [|s IH] using Pos.peano_ind.
  - simpl. lia.
  - rewrite Pos.iter_succ. cbn [digits2_pos]. rewrite !Pos2Z.inj_succ, IH. lia.
Qed.

Lemma valid_binary_finite (s : bool) (m : positive) (e : Z) :
  Z.max (Z.pos (digits2_pos m) + e - 53) (-1074) = e → e ≤ 971 →
  valid_binary (S754_finite s m e) = true.
Proof.
  intros Hc He.
  unfold SpecFloat.valid_binary, bounded, canonical_mantissa, fexp, emin.
  unfold prec, emax.
  apply andb_true_intro. split; [apply Z.eqb_eq | apply Z.leb_le]; lia.
Qed.

(** [float(r)] is exact for [0 < r < 2^53]. *)
Lemma binary_normalize_int (p : positive) :
  Z.pos p < 2 ^ 53 →
  ∃ ma ea,
    binary_normalize prec emax (Z.pos p) 0 false = S754_finite false ma ea
    ∧ valid_binary (S754_finite false ma ea) = true
    ∧ ea ≤ 0
    ∧ Z.pos ma = Z.pos p * 2 ^ (- ea).
Proof.
  intros Hp. cbn [binary_normalize]. unfold binary_round, shl_align.
  rewrite fexp64.
  pose proof (Zdigits2_le (Z.pos p) 53 ltac:(lia) ltac:(lia) Hp) as Hd.
  cbn [Zdigits2] in Hd.
  set (d := Z.pos (digits2_pos p)) in *.
  assert (Hd1 : 1 ≤ d) by (unfold d; lia).
  replace (Z.max (d + 0 - 53) (-1074) - 0) with (d - 53) by lia.
  replace (Z.max (d + 0 - 53) (-1074)) with (d - 53) by lia.
  destruct (d - 53) as [|q|q] eqn:Hq; [|lia|].
  - exists p, 0. split; [|split; [|split]].
    + apply binary_round_aux_exact; fold d; lia.
    + apply valid_binary_finite; fold d; lia.
    + lia.
    + simpl. lia.
  - exists (Pos.iter xO p q), (Z.neg q).
    assert (Hdig : Z.pos (digits2_pos (Pos.iter xO p q)) = 53)
      by (rewrite iter_xO_digits; fold d; lia).
    split; [|split; [|split]].
    + apply binary_round_aux_exact; rewrite ?Hdig; lia.
    + apply valid_binary_finite; rewrite ?Hdig; lia.
    + lia.
    + rewrite iter_xO_value. reflexivity.
Qed.

Lemma b_of_int_exact (r : Z) :
  0 < r < 2 ^ 53 →
  ∃ ma ea a,
    b_of_int r = Ok a
    ∧ Prim2SF a = S754_finite false ma ea
    ∧ ea ≤ 0
    ∧ Z.pos ma = r * 2 ^ (- ea).
Proof.
  intros [Hr0 Hr]. destruct r as [|p|p]; [lia| |lia].
  destruct (binary_normalize_int p Hr) as (ma & ea & Hn & Hv & Hea & Hma).
  exists ma, ea, (SF2Prim (S754_finite false ma ea)).
  split; [|split; [|split]]; [| |exact Hea|exact Hma].
  - unfold b_of_int. rewrite Hn. reflexivity.
  - apply Prim2SF_SF2Prim. exact Hv.
Qed.

Lemma b_to_int_mul_bracket (r : Z) (ratio : float) (mq : positive) (eq : Z) :
  0 ≤ r < 2 ^ 53 →
  Prim2SF ratio = S754_finite false mq eq →
  Z.shiftl (r * Z.pos mq) eq < 2 ^ 52 →
  ∃ a c,
    b_of_int r = Ok a
    ∧ b_to_int (a * ratio)%float = Ok c
    ∧ Z.shiftl (r * Z.pos mq) eq ≤ c ≤ Z.shiftl (r * Z.pos mq) eq + 1.
Proof.
  intros [Hr0 Hr] Hq Hx.
  destruct (Z.eq_dec r 0) as [->|Hne].
  - exists (SF2Prim (S754_zero false)), 0. split; [reflexivity|].
    split.
    + unfold b_to_int. rewrite mul_spec, Hq.
      rewrite Prim2SF_SF2Prim by reflexivity. reflexivity.
    + rewrite Z.mul_0_l, Z.shiftl_0_l. lia.
  - destruct (b_of_int_exact r ltac:(lia)) as (ma & ea & a & Ha & Hsf & Hea & Hma).
    assert (Hsh : Z.shiftl (Z.pos (ma * mq)) (ea + eq)
                  = Z.shiftl (r * Z.pos mq) eq).
    { rewrite Pos2Z.inj_mul, Hma.
      replace (r * 2 ^ (- ea) * Z.pos mq) with (r * Z.pos mq * 2 ^ (- ea))
        by lia.
      rewrite <- Z.shiftl_mul_pow2 by lia.
      rewrite Z.shiftl_shiftl by lia. f_equal. lia. }
    exists a.
    unfold b_to_int. rewrite mul_spec, Hsf, Hq.
    unfold SF64mul, SFmul. cbn [xorb].
    destruct (binary_round_aux_trunc (ma * mq) (ea + eq))
      as [[-> Hz]|(m' & e' & -> & Hbr)].
    + rewrite Hsh. exact Hx.
    + exists 0. split; [exact Ha|]. split; [reflexivity|].
      rewrite <- Hsh, Hz. lia.
    + exists (Z.shiftl (Z.pos m') e'). split; [exact Ha|].
      split; [|rewrite <- Hsh; exact Hbr].
      cbv zeta. rewrite shiftl_trunc. reflexivity.
Qed.

Lemma Qfloor_shiftl (n e : Z) :
  Qfloor (inject_Z n * Qpower (2 # 1) e) = Z.shiftl n e.
Proof.
  destruct (Z_le_gt_dec 0 e) as [He|He].
  - rewrite Z.shiftl_mul_pow2 by exact He.
    rewrite <- (Qfloor_Z (n * 2 ^ e)). apply Qfloor_comp.
    rewrite inject_Z_mult. rewrite (Zpower_Qpower 2%Z e He). reflexivity.
  - rewrite Z.shiftl_div_pow2 by lia.
    assert (Hpos : 0 < 2 ^ (- e)) by (apply pow2_pos; lia).
    assert (Hinv : (Qpower (2 # 1) e == / inject_Z (2 ^ (- e)))%Q).
    { rewrite (Zpower_Qpower 2%Z (- e)%Z) by lia.
      rewrite <- Qpower_opp, Z.opp_involutive. reflexivity. }
    destruct (2 ^ (- e)) as [|D|D] eqn:HD; [lia| |lia].
    change (n / Z.pos D) with (Qfloor (n # D)). apply Qfloor_comp.
    rewrite Hinv, (Qmake_Qdiv n D). reflexivity.
Qed.

Lemma float_value_nonneg (x : float) (rho : Q) :
  float_value x = Some rho → (0 <= rho)%Q →
  (∃ s, Prim2SF x = S754_zero s ∧ rho = 0%Q)
  ∨ (∃ m e, Prim2SF x = S754_finite false m e
            ∧ rho = (inject_Z (Z.pos m) * Qpower (2 # 1) e)%Q).
Proof.
  unfold float_value. destruct (Prim2SF x) as [s| | |s m e]; try discriminate.
  - intros [= <-] _. left. exists s. done.
  - intros [= <-] Hnn. right. destruct s; [exfalso|exists m, e; done].
    assert (Hp : (0 < Qpower (2 # 1) e)%Q) by (apply Qpower_0_lt; reflexivity).
    assert (Hneg : (inject_Z (Z.neg m) * Qpower (2 # 1) e < 0)%Q).
    { rewrite <- (Qmult_0_l (Qpower (2 # 1) e)).
      apply Qmult_lt_compat_r; [exact Hp | reflexivity]. }
    apply (Qlt_not_le _ _ Hneg Hnn).
Qed.

(** The mapping in binary64, for a ratio that is finite and not negative and
    a product below [2^52]: without conversion the source frame is
    [r + offset]; with conversion it is [int(r * ratio) + offset], where the
    product is rounded to the nearest double before it is truncated, so that
    [int(r * ratio)] is the floor of the exact product or one more. *)
Lemma base_frame_binary64 (ratio : float) (rho : Q) (off r : Z) :
  0 ≤ r < 2 ^ 53 →
  float_value ratio = Some rho → (0 <= rho)%Q →
  (inject_Z r * rho < inject_Z (2 ^ 52))%Q →
  (need_fps_conversion ratio = true →
   ∃ c, base_frame ratio off r = Ok (c + off)
        ∧ Qfloor (inject_Z r * rho) ≤ c ≤ Qfloor (inject_Z r * rho) + 1)
  ∧ (need_fps_conversion ratio = false →
     base_frame ratio off r = Ok (r + off)).
Proof.
  intros Hr Hval Hnn Hlt. split; [|apply base_frame_no_conversion].
  intros Hneed. unfold base_frame. rewrite Hneed.
  cbn [float_of_int float_mul int_of_float binary64_PyFloat].
  destruct (float_value_nonneg ratio rho Hval Hnn)
    as [(s & Hz & ->)|(mq & eq & Hq & ->)].
  - (* the ratio is a zero *)
    assert (Hfl : Qfloor (inject_Z r * 0) = 0).
    { assert (Heq : (inject_Z r * 0 == inject_Z 0)%Q) by ring.
      rewrite (Qfloor_comp _ _ Heq). apply Qfloor_Z. }
    rewrite Hfl. exists 0.
    assert (∃ a, b_of_int r = Ok a ∧ b_to_int (a * ratio)%float = Ok 0)
      as (a & -> & Hc).
    { destruct (Z.eq_dec r 0) as [->|Hne].
      - exists (SF2Prim (S754_zero false)). split; [reflexivity|].
        unfold b_to_int. rewrite mul_spec, Hz.
        rewrite Prim2SF_SF2Prim by reflexivity. reflexivity.
      - destruct (b_of_int_exact r ltac:(lia)) as (ma & ea & a & Ha & Hsf & _).
        exists a. split; [exact Ha|].
        unfold b_to_int. rewrite mul_spec, Hz, Hsf. reflexivity. }
    cbn [mbind result_bind]. rewrite Hc. split; [reflexivity | lia].
  - assert (Hfl : Qfloor (inject_Z r * (inject_Z (Z.pos mq) * Qpower (2 # 1) eq))
                  = Z.shiftl (r * Z.pos mq) eq).
    { rewrite <- Qfloor_shiftl. apply Qfloor_comp.
      rewrite inject_Z_mult. ring. }
    rewrite Hfl.
    assert (Hx : Z.shiftl (r * Z.pos mq) eq < 2 ^ 52).
    { rewrite <- Hfl. rewrite Zlt_Qlt.
      eapply Qle_lt_trans; [apply Qfloor_le | exact Hlt]. }
    destruct (b_to_int_mul_bracket r ratio mq eq Hr Hq Hx)
      as (a & c & -> & Hc & Hbr).
    cbn [mbind result_bind]. rewrite Hc. exists c. done.
Qed.



(** Both ends of the bracket occur.  At 29.97 fps against 25 fps and frame
    2500 the code returns [floor(r * rho) = 2996].  At 17.5 fps against
    25 fps the ratio is the double next below 0.7; at frame 10 the product
    is rounded up to 7.0 and the code returns [floor(r * rho) + 1 = 7]. *)
Remark binary64_bracket_examples :
  (base_frame_of_settings (F:=float) (lit "29.97") (lit "25") 0 2500 = Ok 2996
   ∧ (rho ← float_value 0x1.32e48e8a71de6p+0%float;
      Some (Qfloor (inject_Z 2500 * rho))) = Some 2996)
  ∧ (base_frame_of_settings (F:=float) (lit "17.5") (lit "25") 0 10 = Ok 7
     ∧ (rho ← float_value 0x1.6666666666666p-1%float;
        Some (Qfloor (inject_Z 10 * rho))) = Some 6
     ∧ ratio_of_settings (F:=float) (lit "17.5") (lit "25")
       = Ok 0x1.6666666666666p-1%float).
Proof. repeat split; vm_compute; reflexivity. Qed.

(** ** The no-conversion path *)





(** ** Scenario A *)

Lemma capture_window_of_base {F : Type} `{PyFloat F} (ratio : F)
    (video : VideoEntry) (total aligned b : Z) :
  base_frame ratio (offset video) aligned = Ok b →
  frames_to_capture b (tolerance video) total ≠ [] →
  capture_window ratio video total aligned
  = Ok (frames_to_capture b (tolerance video) total).
Proof.
  intros Hb Hne. unfold capture_window. rewrite Hb. cbn [mbind result_bind].
  rewrite (bool_decide_eq_false_2 _ Hne), andb_false_r. reflexivity.
Qed.

Lemma scenario_A_window (total : Z) :
  63855 ≤ total → frames_to_capture 63851 3 total = seqZ 63848 7.
Proof.
  intros Htot. rewrite frames_to_capture_interval by lia. f_equal; lia.
Qed.

(** C4 (amended). With [referenceFps = 25], [sourceFps = 29.97],
    [offset = 332], [referenceFrame = 52986], [tolerance = 3] and at least
    63855 frames in the source: the ratio is 1.1988, the calculated frame is
    [floor(52986 * 1.1988) = 63519], the base source frame is
    [63519 + 332 = 63851], and the window is the 7 frames [63848..63854].
    This holds in exact arithmetic and in binary64, and the older entry
    point with its constant ratio gives the same base frame. *)
Theorem scenario_A_recomputed (total : Z) :
  63855 ≤ total →
  (∃ q : Q,
      ratio_of_settings (lit "29.97") (lit "25") = Ok (Fin q)
      ∧ (q == 11988 # 10000)%Q
      ∧ calculated_frame_of (Fin q) 52986 = Ok 63519
      ∧ base_frame (Fin q) 332 52986 = Ok 63851
      ∧ capture_window (Fin q) scenario_A_video total 52986
        = Ok [63848; 63849; 63850; 63851; 63852; 63853; 63854])
  ∧ (∃ x : float,
      ratio_of_settings (lit "29.97") (lit "25") = Ok x
      ∧ calculated_frame_of x 52986 = Ok 63519
      ∧ base_frame x 332 52986 = Ok 63851
      ∧ capture_window x scenario_A_video total 52986
        = Ok [63848; 63849; 63850; 63851; 63852; 63853; 63854])
  ∧ pal_to_ntsc_base_frame (F:=xfloat) 332 52986 = Ok 63851
  ∧ pal_to_ntsc_base_frame (F:=float) 332 52986 = Ok 63851.
Proof.
  intros Htot.
  assert (Hw : frames_to_capture 63851 3 total
               = [63848; 63849; 63850; 63851; 63852; 63853; 63854])
    by (rewrite scenario_A_window by done; reflexivity).
  split; [|split; [|split; vm_compute; reflexivity]].
  - eexists. split; [vm_compute; reflexivity|].
    split; [reflexivity|].
    split; [vm_compute; reflexivity|].
    split; [vm_compute; reflexivity|].
    rewrite (capture_window_of_base _ scenario_A_video total 52986 63851).
    + cbn [tolerance scenario_A_video]. rewrite Hw. reflexivity.
    + vm_compute. reflexivity.
    + cbn [tolerance scenario_A_video]. rewrite Hw. discriminate.
  - eexists. split; [vm_compute; reflexivity|].
    split; [vm_compute; reflexivity|].
    split; [vm_compute; reflexivity|].
    rewrite (capture_window_of_base _ scenario_A_video total 52986 63851).
    + cbn [tolerance scenario_A_video]. rewrite Hw. reflexivity.
    + vm_compute. reflexivity.
    + cbn [tolerance scenario_A_video]. rewrite Hw. discriminate.
Qed.

Lemma scenario_A_recomputed_witness :
  ∃ x : float,
    ratio_of_settings (lit "29.97") (lit "25") = Ok x
    ∧ capture_window x scenario_A_video 100000 52986
      = Ok [63848; 63849; 63850; 63851; 63852; 63853; 63854].
Proof.
  destruct (scenario_A_recomputed 100000 ltac:(lia))
    as (_ & (x & Hr & _ & _ & Hw) & _ & _).
  exists x. split; [exact Hr | exact Hw].
Defined.

(** C4 as stated does not hold: from the stated inputs the code computes the
    calculated frame 63519, not 63851, the base frame 63851, not 64183, and
    for no frame count the window [64180..64186]; in exact arithmetic and in
    binary64 alike. *)
Lemma scenario_A_counterexample :
  (∃ q : Q,
      ratio_of_settings (lit "29.97") (lit "25") = Ok (Fin q)
      ∧ calculated_frame_of (Fin q) 52986 ≠ Ok 63851
      ∧ base_frame (Fin q) 332 52986 ≠ Ok 64183
      ∧ ∀ total, capture_window (Fin q) scenario_A_video total 52986
                 ≠ Ok (seqZ 64180 7))
  ∧ (∃ x : float,
      ratio_of_settings (lit "29.97") (lit "25") = Ok x
      ∧ calculated_frame_of x 52986 ≠ Ok 63851
      ∧ base_frame x 332 52986 ≠ Ok 64183
      ∧ ∀ total, capture_window x scenario_A_video total 52986
                 ≠ Ok (seqZ 64180 7)).
Proof.
  assert (Hwin : ∀ total w,
    (if bool_decide (0 < 3) && bool_decide (frames_to_capture 63851 3 total = [])
     then Raise IndexError else Ok (frames_to_capture 63851 3 total)) = Ok w →
    w ≠ seqZ 64180 7).
  { intros total w Hw ->.
    destruct (bool_decide (0 < 3) && bool_decide (_ = [])); [discriminate|].
    injection Hw as Hw.
    assert (64180 ∈ frames_to_capture 63851 3 total) as Hin
      by (rewrite Hw; apply elem_of_seqZ; lia).
    rewrite frames_to_capture_interval in Hin by lia.
    apply elem_of_seqZ in Hin. lia. }
  split.
  - eexists. split; [vm_compute; reflexivity|].
    split; [vm_compute; discriminate|].
    split; [vm_compute; discriminate|].
    intros total Heq. unfold capture_window in Heq.
    cbn [offset tolerance scenario_A_video] in Heq.
    match type of Heq with
    | context [base_frame ?r 332 52986] =>
        replace (base_frame r 332 52986) with (@Ok Z 63851) in Heq
          by (vm_compute; reflexivity)
    end.
    cbn [mbind result_bind] in Heq.
    exact (Hwin total _ Heq eq_refl).
  - eexists. split; [vm_compute; reflexivity|].
    split; [vm_compute; discriminate|].
    split; [vm_compute; discriminate|].
    intros total Heq. unfold capture_window in Heq.
    cbn [offset tolerance scenario_A_video] in Heq.
    match type of Heq with
    | context [base_frame ?r 332 52986] =>
        replace (base_frame r 332 52986) with (@Ok Z 63851) in Heq
          by (vm_compute; reflexivity)
    end.
    cbn [mbind result_bind] in Heq.
    exact (Hwin total _ Heq eq_refl).
Qed.

(** ** Clock rates *)





(** ** Frame-set generation *)

Lemma sample_from_spec (rng : nat → nat) (k : nat) :
  ∀ pool : list Z, (k ≤ length pool)%nat → NoDup pool →
    length (sample_from rng pool k) = k
    ∧ NoDup (sample_from rng pool k)
    ∧ sample_from rng pool k ⊆+ pool.
Proof.
  induction k as [|k IH]; intros pool Hk Hnd; simpl.
  - repeat split; [constructor | apply submseteq_nil_l].
  - assert (rng k `mod` length pool < length pool)%nat as Hi
      by (apply Nat.mod_upper_bound; lia).
    destruct (lookup_lt_is_Some_2 pool _ Hi) as [x Hx]. rewrite Hx.
    pose proof (delete_Permutation pool _ x Hx) as Hperm.
    rewrite Hperm in Hnd. apply NoDup_cons in Hnd as [Hnotin Hnd'].
    destruct (IH (delete (rng k `mod` length pool)%nat pool)) as (Hl & Hn & Hs).
    { rewrite length_delete by (eexists; exact Hx). lia. }
    { exact Hnd'. }
    repeat split.
    + simpl. rewrite Hl. reflexivity.
    + apply NoDup_cons. split; [|exact Hn].
      intros Hin. apply Hnotin.
      eapply elem_of_submseteq; eassumption.
    + transitivity (x :: delete (rng k `mod` length pool)%nat pool).
      * apply submseteq_skip, Hs.
      * apply Permutation_submseteq. symmetry. exact Hperm.
Qed.

Lemma StronglySorted_le_lt (l : list Z) :
  StronglySorted Z.le l → NoDup l → StronglySorted Z.lt l.
Proof.
  induction 1 as [|x l Hs IH Hall]; intros Hnd; [constructor|].
  apply NoDup_cons in Hnd as [Hx Hnd]. constructor; [auto|].
  rewrite Forall_forall in Hall |- *. intros y Hy.
  specialize (Hall y Hy). assert (x ≠ y) by (intros ->; done). lia.
Qed.

Lemma StronglySorted_lt_le (l : list Z) :
  StronglySorted Z.lt l → StronglySorted Z.le l.
Proof.
  induction 1 as [|x l Hs IH Hall]; constructor; [done|].
  eapply Forall_impl; [exact Hall|]. intros; simpl in *; lia.
Qed.

Lemma sorted_strongly (l : list Z) : StronglySorted Z.le (sorted l).
Proof. apply StronglySorted_merge_sort; apply _. Qed.

Lemma sorted_perm (l : list Z) : sorted l ≡ₚ l.
Proof. apply merge_sort_Permutation. Qed.

(** Sorting a sample of a range gives a strictly ascending list of that many
    elements of the range; sampling the whole range gives the range. *)
Lemma sorted_sample_range (rng : nat → nat) (lo len k : Z) :
  0 ≤ k ≤ len →
  ∃ l, random_sample rng (seqZ lo len) k = Ok l
       ∧ StronglySorted Z.lt (sorted l)
       ∧ (∀ x, x ∈ sorted l → lo ≤ x < lo + len)
       ∧ Z.of_nat (length (sorted l)) = k
       ∧ (k = len → sorted l = seqZ lo len).
Proof.
  intros Hk. unfold random_sample. rewrite length_seqZ.
  destruct (Z.ltb_spec k 0); [lia|].
  destruct (Z.ltb_spec (Z.of_nat (Z.to_nat len)) k); [lia|]. simpl.
  eexists. split; [reflexivity|].
  destruct (sample_from_spec rng (Z.to_nat k) (seqZ lo len)) as (Hl & Hn & Hs).
  { rewrite length_seqZ. lia. }
  { apply NoDup_seqZ. }
  split; [|split; [|split]].
  - apply StronglySorted_le_lt; [apply sorted_strongly|].
    rewrite sorted_perm. exact Hn.
  - intros x Hx. rewrite sorted_perm in Hx.
    apply (elem_of_submseteq _ _ _ Hx) in Hs. apply elem_of_seqZ in Hs. lia.
  - rewrite sorted_perm, Hl. lia.
  - intros ->.
    apply (StronglySorted_unique Z.le).
    + apply sorted_strongly.
    + apply StronglySorted_lt_le, seqZ_strongly_sorted.
    + rewrite sorted_perm. apply submseteq_length_Permutation; [exact Hs|].
      rewrite Hl, length_seqZ. lia.
Qed.

(** C3 (amended). For every [totalFrames], [rangeStart], [rangeEnd], every
    [count >= 0] and every outcome of the random choices: with the effective
    range [[max(0, rangeStart), min(rangeEnd if rangeEnd > 0 else
    totalFrames, totalFrames))], generation stops on an invalid range when
    start >= end (the error is logged and the run returns no frames);
    otherwise it returns frame numbers that are strictly ascending (sorted,
    no duplicates), all inside the range, [min(count, size of the range)] in
    number, hence never more than [count]; and when [count] is at least the
    size of the range they are all the indices of the range. *)
Theorem new_frame_numbers_spec (rng : nat → nat)
    (total_frames count frame_range_start frame_range_end : Z) :
  0 ≤ count →
  let start_frame := Z.max 0 frame_range_start in
  let end_frame :=
    Z.min (if 0 <? frame_range_end then frame_range_end else total_frames)
          total_frames in
  (end_frame ≤ start_frame →
     new_frame_numbers rng total_frames count frame_range_start frame_range_end
     = Ok (InvalidRange start_frame end_frame))
  ∧ (start_frame < end_frame →
     ∃ l,
       new_frame_numbers rng total_frames count
                         frame_range_start frame_range_end
       = Ok (FrameNumbers l)
       ∧ StronglySorted Z.lt l
       ∧ NoDup l
       ∧ (∀ x, x ∈ l → start_frame ≤ x < end_frame)
       ∧ Z.of_nat (length l) = Z.min count (end_frame - start_frame)
       ∧ Z.of_nat (length l) ≤ count
       ∧ (end_frame - start_frame ≤ count →
          l = seqZ start_frame (end_frame - start_frame))).
Proof.
  intros Hcount start_frame end_frame. unfold new_frame_numbers.
  fold start_frame. fold end_frame. split.
  - intros Hle. destruct (Z.leb_spec end_frame start_frame); [done|lia].
  - intros Hlt. destruct (Z.leb_spec end_frame start_frame); [lia|].
    set (k := if end_frame - start_frame <? count
              then end_frame - start_frame else count).
    assert (Hk : k = Z.min count (end_frame - start_frame))
      by (unfold k; destruct (Z.ltb_spec (end_frame - start_frame) count); lia).
    unfold py_range.
    destruct (sorted_sample_range rng start_frame (end_frame - start_frame) k)
      as (l & Hs & Hsorted & Hin & Hlen & Hall); [lia|].
    exists (sorted l). rewrite Hs. cbn [fmap result_fmap].
    split; [reflexivity|]. split; [exact Hsorted|].
    split; [|split; [|split; [|split]]].
    + rewrite sorted_perm.
      unfold random_sample in Hs.
      destruct ((k <? 0) || _); [discriminate|]. injection Hs as <-.
      apply sample_from_spec; [rewrite length_seqZ; lia | apply NoDup_seqZ].
    + intros x Hx. specialize (Hin x Hx). lia.
    + lia.
    + lia.
    + intros Hsat. apply Hall. lia.
Qed.

Lemma new_frame_numbers_spec_witness :
  new_frame_numbers (λ _, O) 1000 2000 0 0 = Ok (FrameNumbers (seqZ 0 1000)).
Proof.
  destruct (new_frame_numbers_spec (λ _, O) 1000 2000 0 0 ltac:(lia))
    as (_ & Hgen).
  destruct (Hgen ltac:(simpl; lia)) as (l & Heq & _ & _ & _ & _ & _ & Hall).
  rewrite Heq. do 2 f_equal. apply Hall. simpl. lia.
Defined.

(** The run returns the empty list, and processes no video, on an invalid
    range. *)
Lemma invalid_range_returns_nothing {F : Type} `{PyFloat F} (os : os_path)
    (load_video_clip : VideoEntry → bool → result Clip) (rng : nat → nat)
    (first_video : VideoEntry) (others : list VideoEntry) (clip : Clip)
    (count frame_range_start frame_range_end : Z) :
  load_video_clip first_video false = Ok clip →
  Z.min (if 0 <? frame_range_end then frame_range_end else num_frames clip)
        (num_frames clip) ≤ Z.max 0 frame_range_start →
  take_screenshots_enhanced_with_frames (F:=F) os load_video_clip rng
    (first_video :: others) count None frame_range_start frame_range_end
  = Ok ([], []).
Proof.
  intros Hload Hrange. unfold take_screenshots_enhanced_with_frames.
  rewrite Hload. unfold new_frame_numbers.
  destruct (Z.leb_spec
    (Z.min (if 0 <? frame_range_end then frame_range_end else num_frames clip)
           (num_frames clip)) (Z.max 0 frame_range_start)); [done|lia].
Qed.

(** X1. [generate_frame_numbers], for a count that is not negative.  With no
    frame available, [total_frames - offset <= 0], it returns the empty
    list.  Otherwise it returns a strictly ascending list of
    [min(count, total_frames - offset)] frame numbers of
    [[0, total_frames - offset)], which is the whole range when the count
    covers it. *)
Lemma generate_frame_numbers_spec (rng : nat → nat)
    (total_frames count video_offset : Z) :
  0 ≤ count →
  (total_frames - video_offset ≤ 0 →
     generate_frame_numbers rng total_frames count video_offset = Ok [])
  ∧ (0 < total_frames - video_offset →
     ∃ l,
       generate_frame_numbers rng total_frames count video_offset = Ok l
       ∧ StronglySorted Z.lt l
       ∧ (∀ x, x ∈ l → 0 ≤ x < total_frames - video_offset)
       ∧ Z.of_nat (length l) = Z.min count (total_frames - video_offset)
       ∧ (total_frames - video_offset ≤ count →
          l = seqZ 0 (total_frames - video_offset))).
Proof.
  intros Hcount. unfold generate_frame_numbers, py_range.
  set (available := total_frames - video_offset).
  replace (available - 0) with available by lia. split.
  - intros Hle. destruct (Z.leb_spec available 0); [reflexivity | lia].
  - intros Hpos. destruct (Z.leb_spec available 0); [lia|].
    destruct (Z.leb_spec available count).
    + exists (seqZ 0 available). split; [reflexivity|].
      split; [apply seqZ_strongly_sorted|].
      split; [intros x Hx; apply elem_of_seqZ in Hx; lia|].
      split; [rewrite length_seqZ; lia | reflexivity].
    + destruct (sorted_sample_range rng 0 available count)
        as (l & Hs & Hsorted & Hin & Hlen & _); [lia|].
      exists (sorted l). rewrite Hs. split; [reflexivity|].
      split; [exact Hsorted|]. split; [intros x Hx; specialize (Hin x Hx); lia|].
      split; lia.
Qed.

(** C3 as stated does not hold for a negative count: whatever the random
    choices, [random.sample] raises [ValueError] and no frame set is
    returned, by either generator. *)
Lemma new_frame_numbers_counterexample :
  (∀ rng, new_frame_numbers rng 10 (-1) 0 0 = Raise ValueError)
  ∧ (∀ rng, generate_frame_numbers rng 10 (-1) 0 = Raise ValueError).
Proof. split; intros rng; reflexivity. Qed.

(** ** File names *)

Lemma rfind_from_spec (c : ascii) (s : list ascii) :
  ∀ i last : Z,
    (rfind_from c s i last = last ∧ c ∉ s)
    ∨ (∃ k : nat, rfind_from c s i last = i + Z.of_nat k
                  ∧ s !! k = Some c ∧ c ∉ drop (S k) s).
Proof.
  induction s as [|x s IH]; intros i last; simpl.
  - left. split; [reflexivity | apply not_elem_of_nil].
  - destruct (Ascii.eqb_spec x c) as [->|Hne].
    + destruct (IH (i + 1) i) as [[Heq Hnot]|(k & Heq & Hk & Hnot)].
      * right. exists O. rewrite Heq. split; [lia|]. split; [reflexivity|].
        simpl. rewrite drop_0. exact Hnot.
      * right. exists (S k). rewrite Heq. split; [lia|]. split; assumption.
    + destruct (IH (i + 1) last) as [[Heq Hnot]|(k & Heq & Hk & Hnot)].
      * left. split; [exact Heq|]. rewrite not_elem_of_cons. split; congruence.
      * right. exists (S k). rewrite Heq. split; [lia|]. split; assumption.
Qed.

Lemma rfind_spec (c : ascii) (s : list ascii) :
  (rfind c s = -1 ∧ c ∉ s)
  ∨ (∃ k : nat, rfind c s = Z.of_nat k ∧ s !! k = Some c ∧ c ∉ drop (S k) s).
Proof.
  unfold rfind. destruct (rfind_from_spec c s 0 (-1)) as [?|(k & ? & ?)];
    [left; done | right; exists k; done].
Qed.

Lemma elem_of_drop_inv {A : Type} (x : A) (n : nat) (l : list A) :
  x ∈ drop n l → x ∈ l.
Proof.
  intros Hin. rewrite <- (take_drop n l). apply elem_of_app. right. exact Hin.
Qed.

(** Nothing after position [rfind c s] is [c]. *)
Lemma rfind_not_after (c : ascii) (s : list ascii) (n : nat) :
  rfind c s < Z.of_nat n → c ∉ drop n s.
Proof.
  intros Hn. destruct (rfind_spec c s) as [[_ Hnot]|(k & Hk & _ & Hnot)].
  - intros Hin. apply Hnot. eapply elem_of_drop_inv. exact Hin.
  - intros Hin. apply Hnot.
    replace n with (S k + (n - S k))%nat in Hin by lia.
    rewrite <- drop_drop in Hin. eapply elem_of_drop_inv. exact Hin.
Qed.

(** [splitext] cuts the path in two; the second part is empty or is the last
    extension: it starts with the last dot of the path and contains no
    separator. *)
Lemma splitext_spec (os : os_path) (p : list ascii) :
  (splitext os p).1 ++ (splitext os p).2 = p
  ∧ ((splitext os p).2 = []
     ∨ ∃ e, (splitext os p).2 = "."%char :: e
            ∧ ("."%char ∉ e)
            ∧ (sep os ∉ (splitext os p).2)
            ∧ ∀ a, altsep os = Some a → a ∉ (splitext os p).2).
Proof.
  unfold splitext.
  set (sepIndex := match altsep os with
                   | Some a => Z.max (rfind (sep os) p) (rfind a p)
                   | None => rfind (sep os) p
                   end).
  destruct ((sepIndex <? rfind "." p) && existsb _ _) eqn:Hcond; simpl.
  - apply andb_prop in Hcond as [Hlt _]. apply Z.ltb_lt in Hlt.
    split; [apply take_drop|]. right.
    assert (Hsep : rfind (sep os) p ≤ sepIndex)
      by (unfold sepIndex; destruct (altsep os); lia).
    assert (Halt : ∀ a, altsep os = Some a → rfind a p ≤ sepIndex)
      by (unfold sepIndex; intros a ->; lia).
    destruct (rfind_spec "." p) as [[Hm _]|(k & Hk & Hat & Hnot)].
    { destruct (rfind_spec (sep os) p) as [[? _]|(? & ? & _)]; lia. }
    rewrite Hk in *. rewrite Nat2Z.id.
    exists (drop (S k) p). split; [|split; [|split]].
    + apply drop_S. exact Hat.
    + exact Hnot.
    + apply rfind_not_after. lia.
    + intros a Ha. apply rfind_not_after. specialize (Halt a Ha). lia.
  - split; [apply app_nil_r | left; reflexivity].
Qed.

Lemma fold_replace (chars : list ascii) :
  "_"%char ∉ chars →
  ∀ s, fold_left (λ name char, replace char "_" name) chars s
       = (λ c, if existsb (Ascii.eqb c) chars then "_"%char else c) <$> s.
Proof.
  induction chars as [|a chars IH]; intros Hnot s; simpl.
  - symmetry. apply list_fmap_id.
  - apply not_elem_of_cons in Hnot as [Hne Hnot].
    rewrite IH by exact Hnot. unfold replace. rewrite <- list_fmap_compose.
    apply list_fmap_ext. intros _ c _. simpl.
    destruct (Ascii.eqb_spec c a) as [->|Hca]; simpl; [|reflexivity].
    assert (existsb (Ascii.eqb "_") chars = false) as ->; [|reflexivity].
    apply not_true_iff_false. intros (x & Hin & Heq)%existsb_exists.
    apply Ascii.eqb_eq in Heq as <-. apply Hnot, list_elem_of_In, Hin.
Qed.

Lemma is_illegal_spec (c : ascii) : is_illegal c = true ↔ c ∈ illegal_chars.
Proof.
  unfold is_illegal. rewrite existsb_exists, list_elem_of_In. split.
  - intros (x & Hin & Heq). apply Ascii.eqb_eq in Heq as ->. exact Hin.
  - intros Hin. exists c. split; [exact Hin | apply Ascii.eqb_refl].
Qed.

Lemma rfind_last (c : ascii) (pre post : list ascii) :
  c ∉ post → rfind c (pre ++ c :: post) = Z.of_nat (length pre).
Proof.
  intros Hpost.
  destruct (rfind_spec c (pre ++ c :: post)) as [[_ Hnot]|(k & -> & Hk & Hnot)].
  - exfalso. apply Hnot. set_solver.
  - f_equal. destruct (lt_eq_lt_dec k (length pre)) as [[Hlt|Heq]|Hgt].
    + exfalso. apply Hnot.
      rewrite drop_app_le by lia. set_solver.
    + exact Heq.
    + exfalso. apply Hpost.
      rewrite lookup_app_r in Hk by lia.
      destruct (k - length pre)%nat as [|j] eqn:Hj; [lia|].
      simpl in Hk. eapply list_elem_of_lookup_2. exact Hk.
Qed.

Lemma rfind_absent (c : ascii) (s : list ascii) : c ∉ s → rfind c s = -1.
Proof.
  intros Hs. destruct (rfind_spec c s) as [[-> _]|(k & _ & Hk & _)];
    [reflexivity|].
  exfalso. apply Hs. eapply list_elem_of_lookup_2. exact Hk.
Qed.

(** An occurrence found by [rfind] in [dir ++ base] lies in [dir] when
    [base] has none. *)
Lemma rfind_before (c : ascii) (dir base : list ascii) :
  c ∉ base → -1 ≤ rfind c (dir ++ base) < Z.of_nat (length dir).
Proof.
  intros Hb.
  destruct (rfind_spec c (dir ++ base)) as [[-> _]|(k & -> & Hk & _)]; [lia|].
  split; [lia|]. apply inj_lt.
  destruct (lt_dec k (length dir)) as [|Hge]; [assumption|].
  exfalso. apply Hb. rewrite lookup_app_r in Hk by lia.
  eapply list_elem_of_lookup_2. exact Hk.
Qed.

Lemma is_sep_false (os : os_path) (base : list ascii) :
  Forall (λ c, is_sep os c = false) base →
  (sep os ∉ base) ∧ ∀ a, altsep os = Some a → a ∉ base.
Proof.
  intros Hb. rewrite Forall_forall in Hb. split.
  - intros Hin. specialize (Hb _ Hin). unfold is_sep in Hb.
    rewrite Ascii.eqb_refl in Hb. discriminate.
  - intros a Ha Hin. specialize (Hb _ Hin). unfold is_sep in Hb.
    rewrite Ha, Ascii.eqb_refl, orb_true_r in Hb. discriminate.
Qed.

(** The index of the last separator, as [splitext] computes it. *)
Lemma sep_index (os : os_path) (dir base : list ascii) :
  (dir = [] ∨ ∃ d c, dir = d ++ [c] ∧ is_sep os c = true) →
  Forall (λ c, is_sep os c = false) base →
  match altsep os with
  | Some a => Z.max (rfind (sep os) (dir ++ base)) (rfind a (dir ++ base))
  | None => rfind (sep os) (dir ++ base)
  end = Z.of_nat (length dir) - 1.
Proof.
  intros Hdir Hbase. destruct (is_sep_false os base Hbase) as [Hs Ha].
  pose proof (rfind_before (sep os) dir base Hs) as Hbs.
  destruct Hdir as [->|(d & c & -> & Hc)].
  - simpl in *. destruct (altsep os) as [a|]; [|lia].
    pose proof (rfind_before a [] base (Ha a eq_refl)). simpl in *. lia.
  - rewrite length_app in *. simpl length in *.
    unfold is_sep in Hc. apply orb_true_iff in Hc.
    destruct (altsep os) as [a|] eqn:Halt.
    + pose proof (rfind_before a (d ++ [c]) base (Ha a eq_refl)) as Hba.
      rewrite length_app in Hba. simpl length in Hba.
      destruct Hc as [Hc|Hc]; apply Ascii.eqb_eq in Hc; subst c.
      * rewrite <- (app_assoc d [sep os] base) in *. simpl in *.
        rewrite (rfind_last (sep os) d base Hs) in *. lia.
      * rewrite <- (app_assoc d [a] base) in *. simpl in *.
        rewrite (rfind_last a d base (Ha a eq_refl)) in *. lia.
    + destruct Hc as [Hc|Hc]; [|discriminate].
      apply Ascii.eqb_eq in Hc; subst c.
      rewrite <- (app_assoc d [sep os] base). simpl.
      rewrite (rfind_last (sep os) d base Hs). lia.
Qed.

(** [splitext] cuts at the last dot of the last component when a character
    other than a dot comes before it in that component. *)
Lemma splitext_cut (os : os_path) (dir stem e : list ascii) :
  (dir = [] ∨ ∃ d c, dir = d ++ [c] ∧ is_sep os c = true) →
  Forall (λ c, is_sep os c = false) (stem ++ "."%char :: e) →
  "."%char ∉ e →
  (∃ c, c ∈ stem ∧ c ≠ "."%char) →
  splitext os (dir ++ stem ++ "."%char :: e) = (dir ++ stem, "."%char :: e).
Proof.
  intros Hdir Hbase He (c & Hc & Hne). unfold splitext.
  rewrite (sep_index os dir _ Hdir Hbase).
  rewrite (app_assoc dir stem), (rfind_last "." (dir ++ stem) e He).
  rewrite length_app.
  replace (Z.of_nat (length dir) - 1 + 1) with (Z.of_nat (length dir)) by lia.
  replace (Z.of_nat (length dir + length stem) - Z.of_nat (length dir))
    with (Z.of_nat (length stem)) by lia.
  rewrite !Nat2Z.id.
  rewrite <- (app_assoc dir stem), drop_app_length, take_app_length.
  assert (existsb (λ c, negb (Ascii.eqb c ".")) stem = true) as ->.
  { apply existsb_exists. exists c. split; [apply list_elem_of_In, Hc|].
    apply negb_true_iff, Ascii.eqb_neq, Hne. }
  destruct (Z.ltb_spec (Z.of_nat (length dir) - 1)
                       (Z.of_nat (length dir + length stem))); [|lia].
  cbn [andb]. rewrite (app_assoc dir stem).
  replace (length dir + length stem)%nat with (length (dir ++ stem))
    by apply length_app.
  rewrite take_app_length, drop_app_length. reflexivity.
Qed.

(** [splitext] cuts nothing when every dot of the last component has only
    dots before it; a component without a dot is such a component. *)
Lemma splitext_keep (os : os_path) (dir base : list ascii) :
  (dir = [] ∨ ∃ d c, dir = d ++ [c] ∧ is_sep os c = true) →
  Forall (λ c, is_sep os c = false) base →
  (∀ stem e, base = stem ++ "."%char :: e → Forall (λ c, c = "."%char) stem) →
  splitext os (dir ++ base) = (dir ++ base, []).
Proof.
  intros Hdir Hbase Hdots. unfold splitext.
  rewrite (sep_index os dir _ Hdir Hbase).
  destruct (Z.ltb_spec (Z.of_nat (length dir) - 1) (rfind "." (dir ++ base)))
    as [Hlt|]; [|reflexivity].
  destruct (rfind_spec "." (dir ++ base)) as [[Hm _]|(k & Hk & Hat & _)];
    [lia|].
  rewrite Hk in *.
  replace (Z.of_nat (length dir) - 1 + 1) with (Z.of_nat (length dir)) by lia.
  replace (Z.of_nat k - Z.of_nat (length dir))
    with (Z.of_nat (k - length dir)) by lia.
  rewrite !Nat2Z.id, drop_app_length.
  rewrite lookup_app_r in Hat by lia.
  pose proof (take_drop_middle base (k - length dir) "."%char Hat) as Hsplit.
  specialize (Hdots _ _ (eq_sym Hsplit)).
  assert (existsb (λ c, negb (Ascii.eqb c ".")) (take (k - length dir) base)
          = false) as ->; [|reflexivity].
  apply not_true_iff_false. intros (x & Hx & Hnd)%existsb_exists.
  rewrite Forall_forall in Hdots.
  rewrite (Hdots x) in Hnd by (apply list_elem_of_In, Hx). discriminate.
Qed.

(** Every path is a directory part, empty or ending in a separator, followed
    by a last component without separators. *)
Lemma last_component (os : os_path) (p : list ascii) :
  ∃ dir base,
    p = dir ++ base
    ∧ (dir = [] ∨ ∃ d c, dir = d ++ [c] ∧ is_sep os c = true)
    ∧ Forall (λ c, is_sep os c = false) base.
Proof.
  induction p as [|x p IH] using rev_ind.
  - exists [], []. split; [reflexivity|]. split; [left; reflexivity | constructor].
  - destruct (is_sep os x) eqn:Hx.
    + exists (p ++ [x]), []. split; [symmetry; apply app_nil_r|].
      split; [right; exists p, x; done | constructor].
    + destruct IH as (dir & base & -> & Hdir & Hbase).
      exists dir, (base ++ [x]). split; [symmetry; apply app_assoc|].
      split; [exact Hdir|].
      apply Forall_app. split; [exact Hbase | constructor; [exact Hx|constructor]].
Qed.

(** C9. For every input string and either path flavour, [sanitize_filename]
    returns the string without its final extension, with every occurrence of
    each of the nine illegal characters replaced by an underscore; so the
    result contains none of those characters.  The final extension is the
    part that [os.path.splitext] splits off.  Write the string as a
    directory part [dir], empty or ending in a separator, followed by a last
    component [base] without separator.  When [base] is [stem ++ "." ++ e]
    with no dot in [e] and a character other than a dot in [stem], the
    extension is the dot and [e], and the result is [dir ++ stem] with the
    illegal characters replaced.  When every dot of [base] has only dots
    before it ([base] has no dot, or is made of leading dots and a rest
    without dot), there is no extension and the result is the whole string
    with the illegal characters replaced. *)
Theorem sanitize_filename_spec (os : os_path) (filename : list ascii) :
  (splitext os filename).1 ++ (splitext os filename).2 = filename
  ∧ ((splitext os filename).2 = []
     ∨ ∃ e, (splitext os filename).2 = "."%char :: e
            ∧ ("."%char ∉ e)
            ∧ (sep os ∉ (splitext os filename).2)
            ∧ ∀ a, altsep os = Some a → a ∉ (splitext os filename).2)
  ∧ sanitize_filename os filename
    = (λ c, if is_illegal c then "_"%char else c) <$> (splitext os filename).1
  ∧ (∀ c, c ∈ illegal_chars → c ∉ sanitize_filename os filename)
  ∧ illegal_chars
    = [ "<"%char; ">"%char; ":"%char; ascii_of_N 34; "/"%char; "\"%char;
        "|"%char; "?"%char; "*"%char ]
  ∧ (∃ dir base,
       filename = dir ++ base
       ∧ (dir = [] ∨ ∃ d c, dir = d ++ [c] ∧ is_sep os c = true)
       ∧ Forall (λ c, is_sep os c = false) base)
  ∧ (∀ dir base,
       filename = dir ++ base →
       (dir = [] ∨ ∃ d c, dir = d ++ [c] ∧ is_sep os c = true) →
       Forall (λ c, is_sep os c = false) base →
       (∀ stem e,
          base = stem ++ "."%char :: e → "."%char ∉ e →
          (∃ c, c ∈ stem ∧ c ≠ "."%char) →
          sanitize_filename os filename
          = (λ c, if is_illegal c then "_"%char else c) <$> (dir ++ stem))
       ∧ ((∀ stem e, base = stem ++ "."%char :: e →
                     Forall (λ c, c = "."%char) stem) →
          sanitize_filename os filename
          = (λ c, if is_illegal c then "_"%char else c) <$> filename)).
Proof.
  destruct (splitext_spec os filename) as [Hcut Hext].
  assert (Hsan : sanitize_filename os filename
    = (λ c, if is_illegal c then "_"%char else c) <$> (splitext os filename).1).
  { unfold sanitize_filename. apply fold_replace.
    rewrite <- is_illegal_spec. vm_compute. discriminate. }
  split; [exact Hcut|]. split; [exact Hext|]. split; [exact Hsan|].
  split; [|split; [reflexivity|split]].
  - intros c Hc Hin. rewrite Hsan in Hin.
    apply list_elem_of_fmap in Hin as (x & Hx & _).
    destruct (is_illegal x) eqn:Hill.
    + subst c. apply is_illegal_spec in Hc. vm_compute in Hc. discriminate.
    + subst c. apply is_illegal_spec in Hc. congruence.
  - apply last_component.
  - intros dir base -> Hdir Hbase. split.
    + intros stem e -> He Hc.
      rewrite Hsan, (splitext_cut os dir stem e Hdir Hbase He Hc). reflexivity.
    + intros Hdots.
      rewrite Hsan, (splitext_keep os dir base Hdir Hbase Hdots). reflexivity.
Qed.

Lemma sanitize_filename_spec_witness :
  sanitize_filename ntpath (lit "C:\v\Ver<A>.final.mkv")
  = lit "C__v_Ver_A_.final"
  ∧ sanitize_filename posixpath (lit "/v.d/.hidden") = lit "_v.d_.hidden".
Proof.
  split.
  - destruct (sanitize_filename_spec ntpath (lit "C:\v\Ver<A>.final.mkv"))
      as (_ & _ & _ & _ & _ & _ & Hcases).
    destruct (Hcases (lit "C:\v\") (lit "Ver<A>.final.mkv")) as [Hcut _].
    + reflexivity.
    + right. exists (lit "C:\v"), "\"%char. split; reflexivity.
    + repeat constructor.
    + rewrite (Hcut (lit "Ver<A>.final") (lit "mkv")); [reflexivity..| |].
      * intros Hin. repeat (apply elem_of_cons in Hin as [Hin|Hin];
                            [discriminate|]).
        by apply elem_of_nil in Hin.
      * exists "V"%char. split; [apply list_elem_of_here | discriminate].
  - destruct (sanitize_filename_spec posixpath (lit "/v.d/.hidden"))
      as (_ & _ & _ & _ & _ & _ & Hcases).
    destruct (Hcases (lit "/v.d/") (lit ".hidden")) as [_ Hkeep].
    + reflexivity.
    + right. exists (lit "/v.d"), "/"%char. split; reflexivity.
    + repeat constructor.
    + rewrite Hkeep; [reflexivity|].
      intros stem e Heq. destruct stem as [|c stem]; [constructor|].
      exfalso. cbn in Heq. injection Heq as <- Heq.
      assert (Hin : "."%char ∈ stem ++ "."%char :: e)
        by (apply elem_of_app; right; apply list_elem_of_here).
      rewrite <- Heq in Hin.
      repeat (apply elem_of_cons in Hin as [Hin|Hin]; [discriminate|]).
      by apply elem_of_nil in Hin.
Defined.

(** ** Reading the screenshot rate *)

Lemma is_digit_not_space (c : ascii) : is_digit c = true → is_space c = false.
Proof.
  unfold is_digit, is_space. cbv zeta.
  generalize (N_of_ascii c) as n. intros n Hd.
  apply andb_prop in Hd as [H1 H2].
  apply N.leb_le in H1. apply N.leb_le in H2.
  destruct (N.eqb_spec n 32); [lia|].
  destruct (N.leb_spec 9 n), (N.leb_spec n 13); simpl; reflexivity || lia.
Qed.

Lemma is_digit_lower (c : ascii) : is_digit c = true → lower c = c.
Proof.
  unfold is_digit, lower. cbv zeta. intros Hd.
  apply andb_prop in Hd as [H1 H2].
  apply N.leb_le in H1. apply N.leb_le in H2.
  destruct (N.leb_spec 65 (N_of_ascii c)); [lia|]. reflexivity.
Qed.

Lemma lstrip_no_space (s : list ascii) :
  Forall (λ c, is_space c = false) s → lstrip s = s.
Proof. destruct 1 as [|c s Hc _]; simpl; [|rewrite Hc]; reflexivity. Qed.

Lemma strip_no_space (s : list ascii) :
  Forall (λ c, is_space c = false) s → strip s = s.
Proof.
  intros Hs. unfold strip. rewrite (lstrip_no_space s Hs).
  rewrite lstrip_no_space; [apply rev_involutive|].
  apply List.Forall_rev. exact Hs.
Qed.

Lemma take_digits_app (ds r : list ascii) :
  Forall (λ c, is_digit c = true) ds → stops r →
  take_digits (ds ++ r) = (ds, r).
Proof.
  intros Hds Hr. induction Hds as [|d ds Hd Hds IH].
  - destruct r as [|c r]; [reflexivity|]. destruct Hr as [Hc _].
    simpl. rewrite Hc. reflexivity.
  - change ((d :: ds) ++ r) with (d :: (ds ++ r)).
    cbn [take_digits]. rewrite Hd. rewrite IH.
    destruct (ds ++ r) as [|u [|d2 t]] eqn:E; try reflexivity.
    destruct (Ascii.eqb_spec u "_") as [->|Hu]; [|reflexivity].
    exfalso. destruct ds as [|x ds'].
    + simpl in E. subst r. destruct Hr as [_ Hne]. congruence.
    + simpl in E. injection E as -> _.
      apply Forall_cons in Hds as [Hx _]. vm_compute in Hx. discriminate.
Qed.

(** *** Characters and what [int()] and [float()] read for them *)

Lemma transform_ascii (s : list ascii) :
  Forall (λ c, (N_of_ascii c < 128)%N) s → transform_decimal_and_space s = s.
Proof.
  intros Hs. unfold transform_decimal_and_space.
  assert (forallb (λ c, N_of_ascii c <? 128)%N s = true) as ->; [|reflexivity].
  apply forallb_forall. intros c Hc. apply N.ltb_lt.
  rewrite Forall_forall in Hs. apply Hs, list_elem_of_In, Hc.
Qed.

Lemma is_digit_ascii (c : ascii) : is_digit c = true → (N_of_ascii c < 128)%N.
Proof.
  unfold is_digit. intros [_ Hc]%andb_prop. apply N.leb_le in Hc. lia.
Qed.

Lemma float_of_str_transform {F : Type} `{PyFloat F} (s s' : list ascii) :
  transform_decimal_and_space s = transform_decimal_and_space s' →
  float_of_str (F:=F) s = float_of_str s'.
Proof. intros Heq. unfold float_of_str. rewrite Heq. reflexivity. Qed.

Lemma concat_utf8_chars (s : list ascii) : concat (utf8_chars s) = s.
Proof.
  induction s as [|c s IH]; [reflexivity|]. cbn [utf8_chars].
  destruct (utf8_chars s) as [|[|c' ch] chs].
  - cbn in *. congruence.
  - cbn in *. congruence.
  - destruct (is_continuation c'); cbn in *; congruence.
Qed.

Lemma utf8_chars_cons (c : ascii) (s : list ascii) :
  ∃ t chs, utf8_chars (c :: s) = (c :: t) :: chs.
Proof.
  cbn [utf8_chars]. destruct (utf8_chars s) as [|[|c' ch] chs].
  - exists [], []. reflexivity.
  - exists [], ([] :: chs). reflexivity.
  - destruct (is_continuation c').
    + exists (c' :: ch), chs. reflexivity.
    + exists [], ((c' :: ch) :: chs). reflexivity.
Qed.

Lemma utf8_chars_lead (c : ascii) (rest : list ascii) :
  (∀ c' r, rest = c' :: r → is_continuation c' = false) →
  utf8_chars (c :: rest) = [c] :: utf8_chars rest.
Proof.
  intros Hrest. destruct rest as [|c' r]; [reflexivity|].
  destruct (utf8_chars_cons c' r) as (t & chs & Heq).
  remember (c' :: r) as s' eqn:Hs'. cbn [utf8_chars]. rewrite Heq.
  rewrite (Hrest c' r Hs'). reflexivity.
Qed.

Lemma utf8_chars_char (c : ascii) (t rest : list ascii) :
  Forall (λ x, is_continuation x = true) t →
  (∀ c' r, rest = c' :: r → is_continuation c' = false) →
  utf8_chars (c :: t ++ rest) = (c :: t) :: utf8_chars rest.
Proof.
  intros Ht Hrest. revert c. induction Ht as [|x t Hx Ht IH]; intros c.
  - apply utf8_chars_lead, Hrest.
  - specialize (IH x). change ((x :: t) ++ rest) with (x :: t ++ rest).
    remember (x :: t ++ rest) as s' eqn:Hs'. cbn [utf8_chars].
    rewrite IH, Hx. reflexivity.
Qed.

Lemma utf8_chars_concat (l : list (list ascii)) :
  Forall char_shape l → utf8_chars (concat l) = l.
Proof.
  induction 1 as [|ch l (c & t & -> & Hc & Ht) Hl IH]; [reflexivity|].
  cbn [concat]. change ((c :: t) ++ concat l) with (c :: t ++ concat l).
  rewrite utf8_chars_char; [rewrite IH; reflexivity | exact Ht |].
  intros c' r Hr.
  destruct Hl as [|ch' l' (c2 & t2 & -> & Hc2 & _) _]; [discriminate|].
  cbn in Hr. injection Hr as <- _. exact Hc2.
Qed.

Lemma lead_not_continuation (a : ascii) :
  (N_of_ascii a < 128 ∨ 192 ≤ N_of_ascii a)%N → is_continuation a = false.
Proof.
  intros Ha. unfold is_continuation.
  destruct (N.leb_spec 128 (N_of_ascii a)), (N.ltb_spec (N_of_ascii a) 192);
    try reflexivity; lia.
Qed.

Lemma continuation_bits_Some (c : ascii) (x : N) :
  continuation_bits c = Some x → is_continuation c = true.
Proof.
  unfold continuation_bits. destruct (is_continuation c); [done|discriminate].
Qed.

(** Bytes that encode a character are a lead byte and its continuation
    bytes. *)
Lemma code_point_shape (ch : list ascii) (n : N) :
  code_point ch = Some n → char_shape ch.
Proof.
  destruct ch as [|a [|b [|c [|d [|? ?]]]]]; cbn [code_point]; try discriminate.
  - destruct (N.ltb_spec (N_of_ascii a) 128); [|discriminate]. intros _.
    exists a, []. split; [reflexivity|].
    split; [apply lead_not_continuation; lia | constructor].
  - destruct (continuation_bits b) as [x|] eqn:Hb; [|discriminate].
    cbn [mbind option_bind].
    destruct (N.leb_spec 192 (N_of_ascii a)); [|discriminate]. intros _.
    exists a, [b]. split; [reflexivity|].
    split; [apply lead_not_continuation; lia|].
    repeat constructor; eapply continuation_bits_Some; eassumption.
  - destruct (continuation_bits b) as [x|] eqn:Hb; [|discriminate].
    destruct (continuation_bits c) as [y|] eqn:Hc; [|discriminate].
    cbn [mbind option_bind].
    destruct (N.leb_spec 224 (N_of_ascii a)); [|discriminate]. intros _.
    exists a, [b; c]. split; [reflexivity|].
    split; [apply lead_not_continuation; lia|].
    repeat constructor; eapply continuation_bits_Some; eassumption.
  - destruct (continuation_bits b) as [x|] eqn:Hb; [|discriminate].
    destruct (continuation_bits c) as [y|] eqn:Hc; [|discriminate].
    destruct (continuation_bits d) as [z|] eqn:Hd; [|discriminate].
    cbn [mbind option_bind].
    destruct (N.leb_spec 240 (N_of_ascii a)); [|discriminate]. intros _.
    exists a, [b; c; d]. split; [reflexivity|].
    split; [apply lead_not_continuation; lia|].
    repeat constructor; eapply continuation_bits_Some; eassumption.
Qed.

Lemma unicode_decimal_spec (n d : N) :
  unicode_decimal n = Some d →
  ∃ b, In b decimal_digit_blocks ∧ (b ≤ n < b + 10)%N ∧ d = (n - b)%N.
Proof.
  unfold unicode_decimal.
  destruct (List.find _ decimal_digit_blocks) as [b|] eqn:Hf; [|discriminate].
  intros [= <-]. apply find_some in Hf as [Hin Hb].
  apply andb_prop in Hb as [H1 H2].
  apply N.leb_le in H1. apply N.ltb_lt in H2. exists b. done.
Qed.

Lemma unicode_decimal_lt (n d : N) : unicode_decimal n = Some d → (d < 10)%N.
Proof. intros (b & _ & Hb & ->)%unicode_decimal_spec. lia. Qed.

(** Below 128 the only decimal digits are the ASCII digits. *)
Lemma unicode_decimal_ascii (n d : N) :
  (n < 128)%N → unicode_decimal n = Some d → n = (48 + d)%N.
Proof.
  intros Hn (b & Hin & Hb & ->)%unicode_decimal_spec.
  assert (Hblocks : forallb (λ b, (b =? 48) || (128 <=? b))%N
                      decimal_digit_blocks = true) by (vm_compute; reflexivity).
  rewrite forallb_forall in Hblocks. specialize (Hblocks b Hin).
  apply orb_prop in Hblocks as [Hb48|Hb128].
  - apply N.eqb_eq in Hb48. lia.
  - apply N.leb_le in Hb128. lia.
Qed.

(** No space of Unicode is a decimal digit. *)
Lemma unicode_space_not_decimal (n : N) :
  unicode_isspace n = true → unicode_decimal n = None.
Proof.
  unfold unicode_isspace. intros (x & Hin & Hx)%existsb_exists.
  apply N.eqb_eq in Hx as ->. unfold unicode_spaces in Hin.
  repeat (destruct Hin as [<-|Hin]; [vm_compute; reflexivity|]).
  destruct Hin.
Qed.

Lemma ascii_of_char_decimal (ch : list ascii) (d : N) :
  char_decimal ch = Some d →
  (d < 10)%N ∧ ascii_of_char ch = Some (ascii_of_N (48 + d)).
Proof.
  unfold char_decimal, ascii_of_char.
  destruct (code_point ch) as [n|]; [|discriminate].
  cbn [mbind option_bind]. intros Hd.
  split; [eapply unicode_decimal_lt; exact Hd|].
  destruct (N.ltb_spec n 127) as [Hn|Hn].
  - rewrite <- (unicode_decimal_ascii n d) by (lia || exact Hd). reflexivity.
  - destruct (unicode_isspace n) eqn:Hsp.
    + rewrite (unicode_space_not_decimal n Hsp) in Hd. discriminate.
    + rewrite Hd. reflexivity.
Qed.

(** A one-byte character is a decimal digit exactly when it is an ASCII
    digit, and has the value of that digit. *)
Lemma is_decimal_byte (c : ascii) :
  is_decimal [c] = is_digit c
  ∧ (is_digit c = true → char_decimal [c] = Some (digit_val c)).
Proof.
  assert (Hdigit : is_digit c = true → char_decimal [c] = Some (digit_val c)).
  { unfold is_digit, char_decimal, digit_val. cbn [code_point].
    intros [H1 H2]%andb_prop. apply N.leb_le in H1. apply N.leb_le in H2.
    destruct (N.ltb_spec (N_of_ascii c) 128); [|lia].
    cbn [mbind option_bind]. unfold unicode_decimal, decimal_digit_blocks.
    cbn [List.find].
    destruct (N.leb_spec 48 (N_of_ascii c)); [|lia].
    destruct (N.ltb_spec (N_of_ascii c) (48 + 10)); [|lia]. reflexivity. }
  split; [|exact Hdigit].
  destruct (is_digit c) eqn:Hc.
  - unfold is_decimal. rewrite (Hdigit eq_refl). reflexivity.
  - unfold is_decimal, char_decimal. cbn [code_point].
    destruct (N.ltb_spec (N_of_ascii c) 128) as [Hlt|]; [|reflexivity].
    cbn [mbind option_bind].
    destruct (unicode_decimal (N_of_ascii c)) as [d|] eqn:Hd; [|reflexivity].
    pose proof (unicode_decimal_lt _ _ Hd) as Hd10.
    pose proof (unicode_decimal_ascii _ _ Hlt Hd) as Hn.
    unfold is_digit in Hc. rewrite Hn in Hc.
    destruct (N.leb_spec 48 (48 + d)), (N.leb_spec (48 + d) 57);
      try discriminate; lia.
Qed.

Lemma N_of_ascii_digit (d : N) :
  (d < 10)%N → N_of_ascii (ascii_of_N (48 + d)) = (48 + d)%N.
Proof. intros Hd. apply N_ascii_embedding. lia. Qed.

Lemma read_char_decimal (ch : list ascii) :
  is_decimal ch = true →
  is_digit (read_char ch) = true
  ∧ digit_val (read_char ch) = default 0%N (char_decimal ch)
  ∧ char_shape ch
  ∧ ascii_of_char ch = Some (read_char ch).
Proof.
  unfold is_decimal, read_char.
  destruct (char_decimal ch) as [d|] eqn:Hd; [|discriminate]. intros _.
  destruct (ascii_of_char_decimal ch d Hd) as [Hlt ->].
  cbn [default from_option id].
  unfold is_digit, digit_val. rewrite N_of_ascii_digit by exact Hlt.
  split; [|split; [|split]].
  - apply andb_true_intro. split; apply N.leb_le; lia.
  - lia.
  - unfold char_decimal in Hd.
    destruct (code_point ch) as [n|] eqn:Hn; [|discriminate].
    eapply code_point_shape. exact Hn.
  - reflexivity.
Qed.

Lemma read_char_dot :
  read_char ["."%char] = "."%char
  ∧ char_shape ["."%char]
  ∧ ascii_of_char ["."%char] = Some (read_char ["."%char]).
Proof.
  split; [reflexivity|]. split; [|reflexivity].
  exists "."%char, []. repeat split. constructor.
Qed.

(** A character made of ASCII bytes is one byte, and is read as itself. *)
Lemma ascii_char_single (ch : list ascii) :
  char_shape ch → ascii_of_char ch = Some (read_char ch) →
  Forall (λ c, (N_of_ascii c < 128)%N) ch → ch = [read_char ch].
Proof.
  intros (c & t & -> & _ & Ht) Hread Hall.
  apply Forall_cons in Hall as [Hc Hall].
  destruct t as [|x t].
  - f_equal. unfold read_char in *. unfold ascii_of_char in *.
    cbn [code_point] in *.
    destruct (N.ltb_spec (N_of_ascii c) 128); [|lia].
    destruct (N.ltb_spec (N_of_ascii c) 127) as [|Hge].
    + cbn [default from_option id]. symmetry. apply ascii_N_embedding.
    + assert (N_of_ascii c = 127%N) as Hc127 by lia.
      rewrite Hc127 in Hread. vm_compute in Hread. discriminate.
  - exfalso. apply Forall_cons in Ht as [Hx _].
    apply Forall_cons in Hall as [Hx' _].
    unfold is_continuation in Hx.
    destruct (N.leb_spec 128 (N_of_ascii x)); [lia | discriminate].
Qed.

Lemma transform_chars_read (l : list (list ascii)) :
  Forall (λ ch, ascii_of_char ch = Some (read_char ch)) l →
  transform_chars l = read_char <$> l.
Proof.
  induction 1 as [|ch l Hch _ IH]; [reflexivity|].
  cbn [transform_chars]. rewrite Hch, IH. reflexivity.
Qed.

(** What [int()] and [float()] read for a string of characters that all
    have an ASCII reading. *)
Lemma transform_read (l : list (list ascii)) :
  Forall (λ ch, char_shape ch ∧ ascii_of_char ch = Some (read_char ch)) l →
  transform_decimal_and_space (concat l) = read_char <$> l.
Proof.
  intros Hl. unfold transform_decimal_and_space.
  destruct (forallb (λ c, N_of_ascii c <? 128)%N (concat l)) eqn:Hascii.
  - induction Hl as [|ch l [Hshape Hread] _ IH]; [reflexivity|].
    cbn [concat] in *. rewrite forallb_app in Hascii.
    apply andb_prop in Hascii as [Hch Hrest].
    rewrite fmap_cons, <- (IH Hrest).
    rewrite (ascii_char_single ch Hshape Hread) at 1; [reflexivity|].
    apply Forall_forall. intros c Hc. apply N.ltb_lt.
    rewrite forallb_forall in Hch. apply Hch, list_elem_of_In, Hc.
  - rewrite utf8_chars_concat
      by (eapply Forall_impl; [exact Hl | intros ch [? _]; assumption]).
    apply transform_chars_read.
    eapply Forall_impl; [exact Hl | intros ch [_ ?]; assumption].
Qed.

Lemma digits_value_read (ds : list (list ascii)) :
  Forall (λ ch, is_decimal ch = true) ds →
  digits_value (read_char <$> ds) = decimal_value ds.
Proof.
  intros Hds. unfold digits_value, decimal_value.
  assert (Hgen : ∀ acc,
            fold_left (λ a c, 10 * a + digit_val c)%N (read_char <$> ds) acc
            = fold_left (λ a ch, 10 * a + default 0 (char_decimal ch))%N
                        ds acc); [|apply Hgen].
  induction Hds as [|ch ds Hch _ IH]; intros acc; [reflexivity|].
  rewrite fmap_cons. cbn [fold_left].
  destruct (read_char_decimal ch Hch) as (_ & -> & _). apply IH.
Qed.

Lemma read_digits (ds : list (list ascii)) :
  Forall (λ ch, is_decimal ch = true) ds →
  Forall (λ c, is_digit c = true) (read_char <$> ds).
Proof.
  intros Hds. apply Forall_fmap. eapply Forall_impl; [exact Hds|].
  intros ch Hch. apply (read_char_decimal ch Hch).
Qed.

(** *** The pattern *)

Lemma span_digits_spec (s : list (list ascii)) :
  s = (span_digits s).1 ++ (span_digits s).2
  ∧ Forall (λ c, is_decimal c = true) (span_digits s).1
  ∧ ∀ ch, head (span_digits s).2 = Some ch → is_decimal ch = false.
Proof.
  induction s as [|c s (IH1 & IH2 & IH3)]; cbn [span_digits].
  - split; [reflexivity|]. split; [constructor | discriminate].
  - destruct (is_decimal c) eqn:Hc.
    + destruct (span_digits s) as [ds r]. cbn [fst snd] in *.
      split; [cbn; congruence|]. split; [constructor; assumption | exact IH3].
    + cbn [fst snd]. split; [reflexivity|]. split; [constructor|].
      intros ch [= <-]. exact Hc.
Qed.

(** The greedy repetition takes exactly the digits up to the first
    character that is not one. *)
Lemma span_digits_app (ds r : list (list ascii)) :
  Forall (λ c, is_decimal c = true) ds →
  (∀ ch, head r = Some ch → is_decimal ch = false) →
  span_digits (ds ++ r) = (ds, r).
Proof.
  intros Hds Hr. induction Hds as [|d ds Hd _ IH]; cbn [app span_digits].
  - destruct r as [|c r]; [reflexivity|].
    cbn [span_digits]. rewrite (Hr c eq_refl). reflexivity.
  - rewrite Hd, IH. reflexivity.
Qed.

Lemma re_search_number_skip (pre s : list (list ascii)) :
  Forall (λ c, is_decimal c = false) pre →
  re_search_number (pre ++ s) = re_search_number s.
Proof.
  induction 1 as [|c pre Hc _ IH]; [reflexivity|].
  cbn [app re_search_number]. rewrite Hc. exact IH.
Qed.

Lemma re_search_number_none (s : list (list ascii)) :
  re_search_number s = None ↔ Forall (λ c, is_decimal c = false) s.
Proof.
  induction s as [|c s IH]; cbn [re_search_number].
  - split; [constructor | reflexivity].
  - destruct (is_decimal c) eqn:Hc.
    + split; [discriminate|]. intros [Hc' _]%Forall_cons. congruence.
    + rewrite IH. split; [intros; constructor; assumption|].
      intros [_ ?]%Forall_cons. assumption.
Qed.

(** Every string has no digit, or a first maximal run of digits. *)
Lemma first_digits (s : list (list ascii)) :
  Forall (λ c, is_decimal c = false) s
  ∨ ∃ pre d1 rest,
      s = pre ++ d1 ++ rest
      ∧ Forall (λ c, is_decimal c = false) pre
      ∧ d1 ≠ []
      ∧ Forall (λ c, is_decimal c = true) d1
      ∧ ∀ ch, head rest = Some ch → is_decimal ch = false.
Proof.
  induction s as [|c s IH].
  - left. constructor.
  - destruct (is_decimal c) eqn:Hc.
    + right. destruct (span_digits_spec s) as (Hs & Hd & Hr).
      exists [], (c :: (span_digits s).1), (span_digits s).2.
      split; [cbn; congruence|]. split; [constructor|].
      split; [discriminate|]. split; [constructor; assumption | exact Hr].
    + destruct IH as [IH|(pre & d1 & rest & -> & Hpre & Hne & Hd1 & Hr)].
      * left. constructor; assumption.
      * right. exists (c :: pre), d1, rest.
        split; [reflexivity|]. split; [constructor; assumption|]. done.
Qed.

(** *** [float()] on the group *)

(** [float()] reads every string of the form digits, or digits, a dot and
    digits (possibly none), and returns the decimal value written. *)
Lemma float_of_str_number {F : Type} `{PyFloat F}
    (d : ascii) (d1 frac tail : list ascii) :
  is_digit d = true →
  Forall (λ c, is_digit c = true) d1 →
  Forall (λ c, is_digit c = true) frac →
  (tail = [] ∧ frac = []) ∨ tail = "."%char :: frac →
  float_of_str (F:=F) (d :: d1 ++ tail)
  = Ok (float_of_decimal false (digits_value (d :: d1 ++ frac))
                         (- Z.of_nat (length frac))).
Proof.
  intros Hd Hd1 Hfrac Htail.
  assert (Hascii : Forall (λ c, (N_of_ascii c < 128)%N) (d :: d1 ++ tail)).
  { constructor; [apply is_digit_ascii, Hd|].
    apply Forall_app. split.
    - eapply Forall_impl; [exact Hd1|]. apply is_digit_ascii.
    - destruct Htail as [[-> _]| ->]; [constructor|].
      constructor; [vm_compute; reflexivity|].
      eapply Forall_impl; [exact Hfrac|]. apply is_digit_ascii. }
  assert (Hns : Forall (λ c, is_space c = false) (d :: d1 ++ tail)).
  { constructor; [apply is_digit_not_space, Hd|].
    apply Forall_app. split.
    - eapply Forall_impl; [exact Hd1|]. apply is_digit_not_space.
    - destruct Htail as [[-> _]| ->]; [constructor|].
      constructor; [reflexivity|].
      eapply Forall_impl; [exact Hfrac|]. apply is_digit_not_space. }
  unfold float_of_str. rewrite (transform_ascii _ Hascii).
  rewrite (strip_no_space _ Hns).
  assert (Hsign : take_sign (d :: d1 ++ tail) = (false, d :: d1 ++ tail)).
  { unfold take_sign.
    destruct (Ascii.eqb_spec d "-") as [->|_]; [discriminate Hd|].
    destruct (Ascii.eqb_spec d "+") as [->|_]; [discriminate Hd|].
    reflexivity. }
  rewrite Hsign.
  assert (Hkw : ∀ k ks, is_digit k = false →
            bool_decide (lower <$> (d :: d1 ++ tail) = k :: ks) = false).
  { intros k ks Hk. apply bool_decide_eq_false_2.
    rewrite fmap_cons, (is_digit_lower d Hd). intros [= -> _]. congruence. }
  unfold lit. simpl list_ascii_of_string.
  rewrite !Hkw by reflexivity. cbn [orb].
  change (d :: d1 ++ tail) with ((d :: d1) ++ tail).
  assert (Hstop : stops tail)
    by (destruct Htail as [[-> _]| ->]; [exact I | split; [reflexivity|discriminate]]).
  rewrite (take_digits_app (d :: d1) tail (Forall_cons_2 _ _ _ Hd Hd1) Hstop).
  destruct Htail as [[-> ->]| ->].
  - cbn -[digits_value]. rewrite app_nil_r. reflexivity.
  - rewrite Ascii.eqb_refl.
    rewrite <- (app_nil_r frac) at 1.
    rewrite (take_digits_app frac [] Hfrac I). reflexivity.
Qed.

(** [float()] reads the group of a match, whatever the script of its digits:
    a non-empty run of digits [d1], then nothing, or a dot and the digits
    [frac]. *)
Lemma float_of_str_group {F : Type} `{PyFloat F}
    (d1 frac tail : list (list ascii)) :
  d1 ≠ [] →
  Forall (λ c, is_decimal c = true) d1 →
  Forall (λ c, is_decimal c = true) frac →
  (tail = [] ∧ frac = []) ∨ tail = ["."%char] :: frac →
  float_of_str (F:=F) (concat (d1 ++ tail))
  = Ok (float_of_decimal false (decimal_value (d1 ++ frac))
                         (- Z.of_nat (length frac))).
Proof.
  intros Hne Hd1 Hfrac Htail.
  assert (Hread : Forall (λ ch, char_shape ch
                                ∧ ascii_of_char ch = Some (read_char ch))
                         (d1 ++ tail)).
  { assert (Hdec : ∀ l, Forall (λ c, is_decimal c = true) l →
              Forall (λ ch, char_shape ch
                            ∧ ascii_of_char ch = Some (read_char ch)) l).
    { intros l Hl. eapply Forall_impl; [exact Hl|]. intros ch Hch.
      destruct (read_char_decimal ch Hch) as (_ & _ & ? & ?). done. }
    apply Forall_app. split; [apply Hdec, Hd1|].
    destruct Htail as [[-> _]| ->]; [constructor|].
    constructor; [|apply Hdec, Hfrac].
    destruct read_char_dot as (_ & ? & ?). done. }
  assert (Hstr : read_char <$> (d1 ++ tail)
                 = (read_char <$> d1)
                   ++ (if bool_decide (tail = []) then []
                       else "."%char :: (read_char <$> frac))).
  { rewrite fmap_app. f_equal.
    destruct Htail as [[-> _]| ->]; [reflexivity|]. reflexivity. }
  pose proof (read_digits d1 Hd1) as Hd1'.
  pose proof (read_digits frac Hfrac) as Hfrac'.
  rewrite (float_of_str_transform _ (read_char <$> (d1 ++ tail))).
  2:{ rewrite (transform_read _ Hread). symmetry. apply transform_ascii.
      rewrite Hstr. apply Forall_app. split.
      - eapply Forall_impl; [exact Hd1'|]. apply is_digit_ascii.
      - destruct Htail as [[-> _]| ->]; [constructor|].
        constructor; [vm_compute; reflexivity|].
        eapply Forall_impl; [exact Hfrac'|]. apply is_digit_ascii. }
  rewrite Hstr.
  rewrite <- (digits_value_read (d1 ++ frac))
    by (apply Forall_app; done).
  rewrite fmap_app, <- (length_fmap read_char frac).
  destruct d1 as [|ch d1]; [done|].
  rewrite fmap_cons in *. apply Forall_cons in Hd1' as [Hd Hd1'].
  change ((read_char ch :: (read_char <$> d1)) ++ (read_char <$> frac))
    with (read_char ch :: (read_char <$> d1) ++ (read_char <$> frac)).
  change ((read_char ch :: (read_char <$> d1))
          ++ (if bool_decide (tail = []) then []
              else "."%char :: (read_char <$> frac)))
    with (read_char ch :: (read_char <$> d1)
          ++ (if bool_decide (tail = []) then []
              else "."%char :: (read_char <$> frac))).
  apply float_of_str_number; [exact Hd | exact Hd1' | exact Hfrac' |].
  destruct Htail as [[-> ->]| ->]; [left; done | right; reflexivity].
Qed.

Lemma float_of_str_raises {F : Type} `{PyFloat F} (s : list ascii)
    (e : py_error) :
  float_of_str (F:=F) s = Raise e → e = ValueError.
Proof.
  unfold float_of_str.
  repeat (case_match; try discriminate); intros [= <-]; reflexivity.
Qed.

(** The value that [parse_screenshot_fps] reads off the first run of digits
    when [float()] rejects the whole string. *)
Lemma parse_screenshot_fps_group {F : Type} `{PyFloat F} (s : list ascii)
    (e : py_error) (pre d1 rest : list (list ascii)) :
  float_of_str (F:=F) s = Raise e →
  utf8_chars s = pre ++ d1 ++ rest →
  Forall (λ ch, is_decimal ch = false) pre →
  d1 ≠ [] →
  Forall (λ ch, is_decimal ch = true) d1 →
  (∀ ch, head rest = Some ch → is_decimal ch = false) →
  (head rest ≠ Some ["."%char] →
   parse_screenshot_fps (F:=F) s
   = Ok (float_of_decimal false (decimal_value d1) 0))
  ∧ (∀ frac rest',
       rest = ["."%char] :: frac ++ rest' →
       Forall (λ ch, is_decimal ch = true) frac →
       (∀ ch, head rest' = Some ch → is_decimal ch = false) →
       parse_screenshot_fps (F:=F) s
       = Ok (float_of_decimal false (decimal_value (d1 ++ frac))
                              (- Z.of_nat (length frac)))).
Proof.
  intros Hraise Hs Hpre Hne Hd1 Hrest.
  pose proof (float_of_str_raises s e Hraise) as ->.
  assert (Hsearch : re_search_number (utf8_chars s)
                    = Some (match_number (d1 ++ rest))).
  { rewrite Hs, (re_search_number_skip pre _ Hpre).
    destruct d1 as [|ch d1]; [done|].
    apply Forall_cons in Hd1 as [Hch _].
    change ((ch :: d1) ++ rest) with (ch :: d1 ++ rest).
    cbn [re_search_number]. rewrite Hch. reflexivity. }
  assert (Hmatch : match_number (d1 ++ rest)
                   = match rest with
                     | c :: r2 =>
                         if bool_decide (c = ["."%char])
                         then d1 ++ c :: (span_digits r2).1 else d1
                     | [] => d1
                     end).
  { unfold match_number. rewrite (span_digits_app d1 rest Hd1 Hrest).
    reflexivity. }
  unfold parse_screenshot_fps. rewrite Hraise, Hsearch, Hmatch. split.
  - intros Hdot.
    assert (match rest with
            | c :: r2 =>
                if bool_decide (c = ["."%char])
                then d1 ++ c :: (span_digits r2).1 else d1
            | [] => d1
            end = d1 ++ []) as ->.
    { rewrite app_nil_r. destruct rest as [|c r2]; [reflexivity|].
      rewrite bool_decide_eq_false_2; [reflexivity|].
      intros ->. apply Hdot. reflexivity. }
    rewrite (float_of_str_group d1 [] [] Hne Hd1 (Forall_nil_2 _)
               (or_introl (conj eq_refl eq_refl))).
    rewrite app_nil_r. reflexivity.
  - intros frac rest' -> Hfrac Hrest'.
    rewrite bool_decide_eq_true_2 by reflexivity.
    rewrite (span_digits_app frac rest' Hfrac Hrest'). cbn [fst].
    apply (float_of_str_group d1 frac (["."%char] :: frac) Hne Hd1 Hfrac).
    right. reflexivity.
Qed.

(** C10. [parse_screenshot_fps] is total and never raises, in either
    arithmetic and for digits of every script.  For every string it returns
    [float(s)] when [s] reads as a float.  Otherwise, when [s] has a decimal
    digit, it returns the number written by the first run of digits [d1] of
    [s], taken as long as possible, together with the dot and the digits
    [frac] that follow the run, if a dot follows it: [d1], or [d1.frac].
    Otherwise, when [s] has no digit (the empty string included), it returns
    the default 25.0.  Every string is in one of these cases.  The digits are
    the decimal digits of Unicode; among one-byte characters these are the
    ASCII digits, with their usual values. *)
Theorem parse_screenshot_fps_total {F : Type} `{PyFloat F} (s : list ascii) :
  (∃ x : F, parse_screenshot_fps s = Ok x)
  ∧ (∀ x : F, float_of_str s = Ok x → parse_screenshot_fps s = Ok x)
  ∧ (∀ e pre d1 rest,
       float_of_str (F:=F) s = Raise e →
       utf8_chars s = pre ++ d1 ++ rest →
       Forall (λ ch, is_decimal ch = false) pre →
       d1 ≠ [] →
       Forall (λ ch, is_decimal ch = true) d1 →
       (∀ ch, head rest = Some ch → is_decimal ch = false) →
       (head rest ≠ Some ["."%char] →
        parse_screenshot_fps (F:=F) s
        = Ok (float_of_decimal false (decimal_value d1) 0))
       ∧ (∀ frac rest',
            rest = ["."%char] :: frac ++ rest' →
            Forall (λ ch, is_decimal ch = true) frac →
            (∀ ch, head rest' = Some ch → is_decimal ch = false) →
            parse_screenshot_fps (F:=F) s
            = Ok (float_of_decimal false (decimal_value (d1 ++ frac))
                                   (- Z.of_nat (length frac)))))
  ∧ (∀ e, float_of_str (F:=F) s = Raise e →
          Forall (λ ch, is_decimal ch = false) (utf8_chars s) →
          parse_screenshot_fps (F:=F) s = Ok (float_of_decimal false 25 0))
  ∧ (Forall (λ ch, is_decimal ch = false) (utf8_chars s)
     ∨ ∃ pre d1 rest,
         utf8_chars s = pre ++ d1 ++ rest
         ∧ Forall (λ ch, is_decimal ch = false) pre
         ∧ d1 ≠ []
         ∧ Forall (λ ch, is_decimal ch = true) d1
         ∧ ∀ ch, head rest = Some ch → is_decimal ch = false)
  ∧ concat (utf8_chars s) = s
  ∧ (∀ c : ascii,
       is_decimal [c] = is_digit c
       ∧ (is_digit c = true → char_decimal [c] = Some (digit_val c)))
  ∧ parse_screenshot_fps (F:=F) [] = Ok (float_of_decimal false 25 0).
Proof.
  assert (Hnone : ∀ e, float_of_str (F:=F) s = Raise e →
            Forall (λ ch, is_decimal ch = false) (utf8_chars s) →
            parse_screenshot_fps (F:=F) s = Ok (float_of_decimal false 25 0)).
  { intros e Hraise Hnd.
    pose proof (float_of_str_raises s e Hraise) as ->.
    apply re_search_number_none in Hnd.
    unfold parse_screenshot_fps. rewrite Hraise, Hnd. reflexivity. }
  split; [|split; [|split; [|split; [|split; [|split; [|split]]]]]].
  - destruct (float_of_str (F:=F) s) as [x|e] eqn:Hf.
    + exists x. unfold parse_screenshot_fps. rewrite Hf. reflexivity.
    + destruct (first_digits (utf8_chars s))
        as [Hnd|(pre & d1 & rest & Hs & Hpre & Hne & Hd1 & Hrest)].
      * eexists. apply (Hnone e eq_refl Hnd).
      * destruct (parse_screenshot_fps_group s e pre d1 rest Hf Hs Hpre Hne
                    Hd1 Hrest) as [Hplain Hdot].
        destruct rest as [|c r2].
        { eexists. apply Hplain. discriminate. }
        destruct (decide (c = ["."%char])) as [->|Hc].
        -- destruct (span_digits_spec r2) as (Hr2 & Hfrac & Hrest').
           eexists. apply (Hdot _ _ (f_equal _ Hr2) Hfrac Hrest').
        -- eexists. apply Hplain. intros [= Heq]. exact (Hc Heq).
  - intros x Hx. unfold parse_screenshot_fps. rewrite Hx. reflexivity.
  - intros e pre d1 rest. apply parse_screenshot_fps_group.
  - exact Hnone.
  - apply first_digits.
  - apply concat_utf8_chars.
  - apply is_decimal_byte.
  - reflexivity.
Qed.

Lemma parse_screenshot_fps_total_witness :
  parse_screenshot_fps (F:=float) (lit "abc30fps")
  = Ok (float_of_decimal false 30 0)
  ∧ parse_screenshot_fps (F:=float) (lit "約２９.９７fps")
    = Ok (float_of_decimal false 2997 (-2)).
Proof.
  split.
  - destruct (parse_screenshot_fps_total (F:=float) (lit "abc30fps"))
      as (_ & _ & Hgroup & _).
    destruct (Hgroup ValueError
                (utf8_chars (lit "abc")) (utf8_chars (lit "30"))
                (utf8_chars (lit "fps"))) as [Hplain _].
    + vm_compute. reflexivity.
    + vm_compute. reflexivity.
    + repeat constructor.
    + discriminate.
    + repeat constructor.
    + intros ch [= <-]. reflexivity.
    + rewrite Hplain by discriminate. reflexivity.
  - destruct (parse_screenshot_fps_total (F:=float) (lit "約２９.９７fps"))
      as (_ & _ & Hgroup & _).
    destruct (Hgroup ValueError
                (utf8_chars (lit "約")) (utf8_chars (lit "２９"))
                (utf8_chars (lit ".９７fps"))) as [_ Hdot].
    + vm_compute. reflexivity.
    + vm_compute. reflexivity.
    + repeat constructor.
    + discriminate.
    + repeat constructor.
    + intros ch [= <-]. reflexivity.
    + rewrite (Hdot (utf8_chars (lit "９７")) (utf8_chars (lit "fps")));
        [reflexivity | vm_compute; reflexivity | repeat constructor |].
      intros ch [= <-]. reflexivity.
Defined.

(** ** Frame numbers in file names *)

Lemma digits_value_uint_acc (u : Decimal.uint) :
  ∀ acc : positive,
    fold_left (λ a c, 10 * a + digit_val c)%N
              (list_ascii_of_string (NilEmpty.string_of_uint u)) (N.pos acc)
    = N.pos (Pos.of_uint_acc u acc).
Proof.
  induction u as [|u IH|u IH|u IH|u IH|u IH|u IH|u IH|u IH|u IH|u IH];
    intros acc; simpl; [reflexivity|..];
    rewrite <- IH; f_equal; vm_compute digit_val; lia.
Qed.

Lemma digits_value_uint (u : Decimal.uint) :
  digits_value (list_ascii_of_string (NilEmpty.string_of_uint u))
  = N.of_uint u.
Proof.
  unfold digits_value, N.of_uint.
  induction u as [|u IH|u IH|u IH|u IH|u IH|u IH|u IH|u IH|u IH|u IH]; simpl;
    [reflexivity | exact IH | ..]; apply digits_value_uint_acc.
Qed.

Lemma digits_value_str_of_N (n : N) : digits_value (str_of_N n) = n.
Proof.
  unfold str_of_N. rewrite digits_value_uint. apply DecimalN.Unsigned.of_to.
Qed.

Lemma uint_chars_digits (u : Decimal.uint) :
  Forall (λ c, is_digit c = true)
         (list_ascii_of_string (NilEmpty.string_of_uint u)).
Proof. induction u; simpl; constructor; (reflexivity || assumption). Qed.

Lemma zfill_digits (width : nat) (s : list ascii) :
  Forall (λ c, is_digit c = true) s →
  Forall (λ c, is_digit c = true) (zfill width s).
Proof.
  intros Hs. unfold zfill. apply Forall_app. split; [|exact Hs].
  apply Forall_replicate. reflexivity.
Qed.

Lemma zfill_value (width : nat) (s : list ascii) :
  digits_value (zfill width s) = digits_value s.
Proof.
  unfold zfill, digits_value. rewrite fold_left_app. f_equal.
  induction (width - length s)%nat as [|k IH]; simpl; [reflexivity | exact IH].
Qed.

Lemma zfill_nonempty (width : nat) (s : list ascii) :
  (0 < width)%nat → zfill width s ≠ [].
Proof.
  intros Hw. unfold zfill. destruct s as [|c s].
  - simpl. destruct width; [lia|]. simpl. discriminate.
  - intros Habs. apply app_eq_nil in Habs as [_ ?]. discriminate.
Qed.

(** [int()] reads a non-empty string of digits, with or without a minus
    sign, as the number written. *)
Lemma py_int_digits (neg : bool) (ds : list ascii) :
  ds ≠ [] → Forall (λ c, is_digit c = true) ds →
  py_int (if neg then "-"%char :: ds else ds)
  = Ok (if neg then - Z.of_N (digits_value ds) else Z.of_N (digits_value ds)).
Proof.
  intros Hne Hds. unfold py_int.
  assert (Hns : Forall (λ c, is_space c = false) ds)
    by (eapply Forall_impl; [exact Hds | apply is_digit_not_space]).
  assert (Hascii : Forall (λ c, (N_of_ascii c < 128)%N) ds)
    by (eapply Forall_impl; [exact Hds | apply is_digit_ascii]).
  pose proof (take_digits_app ds [] Hds I) as Htd. rewrite app_nil_r in Htd.
  destruct neg.
  - rewrite transform_ascii
      by (constructor; [vm_compute; reflexivity | exact Hascii]).
    rewrite strip_no_space by (constructor; [reflexivity | exact Hns]).
    cbn [take_sign]. rewrite Ascii.eqb_refl. rewrite Htd.
    destruct ds; [done | reflexivity].
  - rewrite transform_ascii by exact Hascii.
    rewrite strip_no_space by exact Hns.
    destruct ds as [|d ds]; [done|].
    apply Forall_cons in Hds as [Hd _]. unfold take_sign.
    destruct (Ascii.eqb_spec d "-") as [->|_]; [discriminate Hd|].
    destruct (Ascii.eqb_spec d "+") as [->|_]; [discriminate Hd|].
    rewrite Htd. reflexivity.
Qed.

Lemma format_06d_shape (n : Z) :
  ∃ ds, ds ≠ [] ∧ Forall (λ c, is_digit c = true) ds
        ∧ digits_value ds = Z.to_N (Z.abs n)
        ∧ format_06d n = if n <? 0 then "-"%char :: ds else ds.
Proof.
  unfold format_06d. destruct (Z.ltb_spec n 0).
  - exists (zfill 5 (str_of_N (Z.to_N (- n)))).
    split; [apply zfill_nonempty; lia|].
    split; [apply zfill_digits, uint_chars_digits|].
    split; [|reflexivity].
    rewrite zfill_value, digits_value_str_of_N. f_equal. lia.
  - exists (zfill 6 (str_of_N (Z.to_N n))).
    split; [apply zfill_nonempty; lia|].
    split; [apply zfill_digits, uint_chars_digits|].
    split; [|reflexivity].
    rewrite zfill_value, digits_value_str_of_N. f_equal. lia.
Qed.

(** Reading back a formatted frame number gives the frame number. *)
Lemma py_int_format_06d (n : Z) : py_int (format_06d n) = Ok n.
Proof.
  destruct (format_06d_shape n) as (ds & Hne & Hds & Hval & ->).
  rewrite (py_int_digits _ ds Hne Hds), Hval.
  destruct (Z.ltb_spec n 0); f_equal; lia.
Qed.

Lemma format_06d_no_underscore (n : Z) : "_"%char ∉ format_06d n.
Proof.
  destruct (format_06d_shape n) as (ds & _ & Hds & _ & ->).
  assert ("_"%char ∉ ds).
  { intros Hin. rewrite Forall_forall in Hds. specialize (Hds _ Hin).
    discriminate Hds. }
  destruct (n <? 0); [|assumption].
  apply not_elem_of_cons. split; [discriminate | assumption].
Qed.

Lemma split_nonempty (c : ascii) (s : list ascii) : split c s ≠ [].
Proof.
  destruct s as [|x s]; simpl; [discriminate|].
  destruct (Ascii.eqb x c); [discriminate|].
  destruct (split c s); discriminate.
Qed.

Lemma split_first_field (c : ascii) (p rest : list ascii) :
  c ∉ p → split c (p ++ c :: rest) = p :: split c rest.
Proof.
  induction p as [|x p IH]; intros Hnot; simpl.
  - rewrite Ascii.eqb_refl. reflexivity.
  - apply not_elem_of_cons in Hnot as [Hne Hnot].
    destruct (Ascii.eqb_spec x c) as [->|_]; [done|].
    rewrite IH by exact Hnot. reflexivity.
Qed.

Lemma endswith_app (x suffix : list ascii) : endswith (x ++ suffix) suffix = true.
Proof.
  unfold endswith. apply bool_decide_eq_true_2.
  rewrite length_app.
  replace (length x + length suffix - length suffix)%nat with (length x) by lia.
  apply drop_app_length.
Qed.

(** The scan reads the aligned frame number off a screenshot written by the
    engine, whatever the original frame and the name. *)
Lemma add_frame_of_screenshot (frame_numbers : gset Z)
    (aligned_frame original_frame : Z) (safe_name : list ascii) :
  add_frame_of frame_numbers
    (screenshot_filename aligned_frame original_frame safe_name)
  = {[ aligned_frame ]} ∪ frame_numbers.
Proof.
  unfold add_frame_of, screenshot_filename.
  set (rest := format_06d original_frame ++ "_"%char :: safe_name ++ lit ".png").
  assert (Hpng : endswith (format_06d aligned_frame ++ "_"%char :: rest)
                          (lit ".png") = true).
  { unfold rest.
    replace (format_06d aligned_frame ++
             "_"%char :: format_06d original_frame ++
             "_"%char :: safe_name ++ lit ".png")
      with ((format_06d aligned_frame ++
             "_"%char :: format_06d original_frame ++
             "_"%char :: safe_name) ++ lit ".png").
    - apply endswith_app.
    - rewrite <- app_assoc. simpl. f_equal. f_equal.
      rewrite <- app_assoc. reflexivity. }
  rewrite Hpng.
  rewrite split_first_field by apply format_06d_no_underscore.
  rewrite bool_decide_eq_true_2.
  - simpl. rewrite py_int_format_06d. reflexivity.
  - simpl. pose proof (split_nonempty "_" rest).
    destruct (split "_" rest); [done | simpl; lia].
Qed.

(** Whatever the file, the scan adds at most one number and keeps the rest. *)
Lemma add_frame_of_union (frame_numbers : gset Z) (filename : list ascii) :
  add_frame_of frame_numbers filename
  = add_frame_of ∅ filename ∪ frame_numbers.
Proof.
  unfold add_frame_of.
  repeat case_match; set_solver.
Qed.

Lemma elem_of_foldl_add_frame (listing : list (list ascii)) :
  ∀ (frame_numbers : gset Z) (a : Z),
    a ∈ foldl add_frame_of frame_numbers listing
    ↔ a ∈ frame_numbers ∨ ∃ f, f ∈ listing ∧ a ∈ add_frame_of ∅ f.
Proof.
  induction listing as [|f listing IH]; intros frame_numbers a; simpl.
  - split; [auto|]. intros [?|(f & Hf & _)]; [done|].
    apply elem_of_nil in Hf as [].
  - rewrite IH, (add_frame_of_union frame_numbers f), elem_of_union.
    setoid_rewrite elem_of_cons. naive_solver.
Qed.

Lemma elem_of_folder_frame_numbers (listing : list (list ascii)) (a : Z) :
  a ∈ folder_frame_numbers listing
  ↔ ∃ f, f ∈ listing ∧ a ∈ add_frame_of ∅ f.
Proof.
  unfold folder_frame_numbers. rewrite elem_of_foldl_add_frame.
  set_solver.
Qed.

(** The sorted list of the elements of a set of ints is the only strictly
    ascending list with those elements. *)
Lemma sorted_elements_strongly (X : gset Z) :
  StronglySorted Z.lt (sorted (elements X)).
Proof.
  apply StronglySorted_le_lt; [apply sorted_strongly|].
  rewrite sorted_perm. apply NoDup_elements.
Qed.

Lemma elem_of_sorted_elements (X : gset Z) (a : Z) :
  a ∈ sorted (elements X) ↔ a ∈ X.
Proof. rewrite sorted_perm. apply elem_of_elements. Qed.

Lemma StronglySorted_lt_NoDup (l : list Z) : StronglySorted Z.lt l → NoDup l.
Proof.
  induction 1 as [|x l Hs IH Hall]; constructor; [|exact IH].
  intros Hin. rewrite Forall_forall in Hall. specialize (Hall x Hin). lia.
Qed.

Lemma strictly_ascending_unique (l1 l2 : list Z) :
  StronglySorted Z.lt l1 → StronglySorted Z.lt l2 →
  (∀ a, a ∈ l1 ↔ a ∈ l2) → l1 = l2.
Proof.
  intros H1 H2 Hmem. apply (StronglySorted_unique Z.le).
  - apply StronglySorted_lt_le, H1.
  - apply StronglySorted_lt_le, H2.
  - apply NoDup_Permutation; auto using StronglySorted_lt_NoDup.
Qed.

(** The files a video contributes are screenshot names whose aligned frame
    is one of the run's frame numbers. *)
Lemma process_video_files {F : Type} `{PyFloat F} (os : os_path)
    (load_video_clip : VideoEntry → bool → result Clip) (frame_numbers : list Z)
    (video : VideoEntry) (files : list (list ascii)) :
  process_video os load_video_clip frame_numbers video = Ok files →
  ∃ tasks : list (Z * Z * list ascii),
    files = (λ t, screenshot_filename t.1.1 t.1.2 t.2) <$> tasks
    ∧ ∀ t, t ∈ tasks → t.1.1 ∈ frame_numbers.
Proof.
  unfold process_video. intros Hp.
  destruct (load_video_clip video true) as [clip|]; [|discriminate].
  cbn [mbind result_bind] in Hp.
  destruct (video_fps_of video clip) as [vf|]; [|discriminate].
  cbn [mbind result_bind] in Hp.
  destruct (parse_screenshot_fps (screenshot_fps video)) as [sf|]; [|discriminate].
  cbn [mbind result_bind] in Hp.
  destruct (float_truediv vf sf) as [ratio|]; [|discriminate].
  cbn [mbind result_bind] in Hp. injection Hp as <-.
  exists ((λ p, (p, sanitize_filename os (name video)))
            <$> saved_frames ratio video (num_frames clip) frame_numbers).
  split.
  - rewrite <- list_fmap_compose. reflexivity.
  - intros t (p & -> & Hp)%list_elem_of_fmap. simpl.
    unfold saved_frames in Hp.
    apply list_elem_of_bind in Hp as (a & Hin & Ha).
    destruct (capture_window ratio video (num_frames clip) a); [|by apply elem_of_nil in Hin].
    apply list_elem_of_fmap in Hin as (o & -> & _). exact Ha.
Qed.

(** C5. When a folder holds the screenshots of a run (files named
    [{aligned:06d}_{original:06d}_{name}.png]), the frame numbers the scan
    reads off the file names are exactly the distinct aligned frames that
    were written, in ascending order, whatever the order (and multiplicity)
    in which the folder lists its files; a folder not yet in the history
    yields an entry with that frame list.  In particular the files
    [000100_000096_VerA.png] and [000250_000246_VerA.png] give [100, 250]. *)
Theorem history_reconstruction (tasks : list (Z * Z * list ascii))
    (listing : list (list ascii)) :
  (∀ f, f ∈ listing
        ↔ ∃ t, t ∈ tasks ∧ f = screenshot_filename t.1.1 t.1.2 t.2) →
  StronglySorted Z.lt (sorted (elements (folder_frame_numbers listing)))
  ∧ (∀ a, a ∈ sorted (elements (folder_frame_numbers listing))
          ↔ ∃ t, t ∈ tasks ∧ t.1.1 = a)
  ∧ (∀ listing', (∀ f, f ∈ listing' ↔ f ∈ listing) →
       sorted (elements (folder_frame_numbers listing'))
       = sorted (elements (folder_frame_numbers listing)))
  ∧ (tasks ≠ [] →
     ∀ history folder_name,
       (∀ h, h ∈ history → folder h ≠ Some folder_name) →
       ∃ entry,
         scan_folder history (folder_name, Folder listing) = history ++ [entry]
         ∧ frames entry = sorted (elements (folder_frame_numbers listing))
         ∧ folder entry = Some folder_name)
  ∧ sorted (elements (folder_frame_numbers
              [lit "000100_000096_VerA.png"; lit "000250_000246_VerA.png"]))
    = [100; 250]
  ∧ sorted (elements (folder_frame_numbers
              [lit "000250_000246_VerA.png"; lit "000100_000096_VerA.png"]))
    = [100; 250].
Proof.
  intros Hlisting.
  assert (Hmem : ∀ a, a ∈ folder_frame_numbers listing
                      ↔ ∃ t, t ∈ tasks ∧ t.1.1 = a).
  { intros a. rewrite elem_of_folder_frame_numbers. split.
    - intros (f & Hf & Ha). apply Hlisting in Hf as (t & Ht & ->).
      rewrite add_frame_of_screenshot in Ha. exists t. set_solver.
    - intros (t & Ht & <-).
      exists (screenshot_filename t.1.1 t.1.2 t.2). split.
      + apply Hlisting. exists t. done.
      + rewrite add_frame_of_screenshot. set_solver. }
  split; [apply sorted_elements_strongly|].
  split; [intros a; rewrite elem_of_sorted_elements; apply Hmem|].
  split; [|split; [|split; vm_compute; reflexivity]].
  - intros listing' Hsame. apply strictly_ascending_unique;
      [apply sorted_elements_strongly | apply sorted_elements_strongly |].
    intros a. rewrite !elem_of_sorted_elements, !elem_of_folder_frame_numbers.
    split; intros (f & Hf & Ha); exists f; (split; [apply Hsame, Hf | exact Ha]).
  - intros Hne history folder_name Hnew. unfold scan_folder. cbn [fst snd].
    assert (existsb (λ h, bool_decide (folder h = Some folder_name)) history
            = false) as ->.
    { apply not_true_iff_false. intros (h & Hin & Hh)%existsb_exists.
      apply bool_decide_eq_true_1 in Hh.
      apply (Hnew h); [apply list_elem_of_In, Hin | exact Hh]. }
    rewrite bool_decide_eq_false_2.
    + eexists. split; [reflexivity|]. split; reflexivity.
    + destruct tasks as [|t tasks']; [done|]. intros Hempty.
      assert (t.1.1 ∈ folder_frame_numbers listing) as Hin
        by (apply Hmem; exists t; split; [apply list_elem_of_here | done]).
      rewrite Hempty in Hin. set_solver.
Qed.

Lemma history_reconstruction_witness :
  sorted (elements (folder_frame_numbers
    [lit "000250_000246_VerA.png"; lit "000100_000096_VerA.png";
     lit "000250_000247_VerA.png"]))
  = sorted (elements (folder_frame_numbers
      [lit "000100_000096_VerA.png"; lit "000250_000246_VerA.png";
       lit "000250_000247_VerA.png"])).
Proof.
  refine (proj1 (proj2 (proj2 (history_reconstruction
    [(100, 96, lit "VerA"); (250, 246, lit "VerA"); (250, 247, lit "VerA")]
    [lit "000100_000096_VerA.png"; lit "000250_000246_VerA.png";
     lit "000250_000247_VerA.png"] _))) _ _).
  - intros f. rewrite !elem_of_cons, !elem_of_nil. split.
    + intros [->|[->|[->|[]]]].
      * exists (100, 96, lit "VerA"). split; [|reflexivity].
        apply list_elem_of_here.
      * exists (250, 246, lit "VerA"). split; [|reflexivity].
        apply list_elem_of_further, list_elem_of_here.
      * exists (250, 247, lit "VerA"). split; [|reflexivity].
        do 2 apply list_elem_of_further. apply list_elem_of_here.
    + intros (t & Ht & ->).
      rewrite !elem_of_cons, elem_of_nil in Ht.
      destruct Ht as [->|[->|[->|[]]]]; vm_compute; auto.
  - intros f. rewrite !elem_of_cons, !elem_of_nil. tauto.
Defined.

(** ** The history and the folder scan *)

Lemma scan_folder_extends (history : list HistoryEntry)
    (entry : list ascii * dir_entry) :
  ∃ new, scan_folder history entry = history ++ new.
Proof.
  unfold scan_folder. destruct (entry.2) as [|listing].
  - exists []. symmetry. apply app_nil_r.
  - destruct (existsb _ history); [exists []; symmetry; apply app_nil_r|].
    destruct (bool_decide _); [exists []; symmetry; apply app_nil_r|].
    eexists. reflexivity.
Qed.

Lemma settled_scan_folder (history : list HistoryEntry)
    (entry : list ascii * dir_entry) :
  settled history entry → scan_folder history entry = history.
Proof.
  unfold settled, scan_folder. destruct (entry.2) as [|listing]; [done|].
  intros [-> | Hempty]; [reflexivity|].
  destruct (existsb _ history); [reflexivity|].
  rewrite bool_decide_eq_true_2 by exact Hempty. reflexivity.
Qed.

Lemma settled_app (history new : list HistoryEntry)
    (entry : list ascii * dir_entry) :
  settled history entry → settled (history ++ new) entry.
Proof.
  unfold settled. destruct (entry.2); [done|].
  intros [Hk | He]; [left | right; exact He].
  rewrite existsb_app, Hk. reflexivity.
Qed.

Lemma scan_folder_settles (history : list HistoryEntry)
    (entry : list ascii * dir_entry) :
  settled (scan_folder history entry) entry.
Proof.
  unfold settled, scan_folder. destruct (entry.2) as [|listing]; [done|].
  destruct (existsb _ history) eqn:Hk; [left; exact Hk|].
  destruct (bool_decide _) eqn:He.
  - right. apply bool_decide_eq_true_1 in He. exact He.
  - left. rewrite existsb_app. simpl.
    rewrite bool_decide_eq_true_2 by reflexivity. apply orb_true_r.
Qed.

Lemma settled_foldl (entries : list (list ascii * dir_entry)) :
  ∀ history entry,
    settled history entry → settled (foldl scan_folder history entries) entry.
Proof.
  induction entries as [|e entries IH]; intros history entry Hs; simpl.
  - exact Hs.
  - apply IH. destruct (scan_folder_extends history e) as [new ->].
    apply settled_app, Hs.
Qed.

Lemma foldl_scan_settles (entries : list (list ascii * dir_entry)) :
  ∀ history entry,
    entry ∈ entries → settled (foldl scan_folder history entries) entry.
Proof.
  induction entries as [|e entries IH]; intros history entry Hin; simpl.
  - apply elem_of_nil in Hin as [].
  - apply elem_of_cons in Hin as [->|Hin].
    + apply settled_foldl, scan_folder_settles.
    + apply IH, Hin.
Qed.

(** X10. A folder discovered by a scan is recognised by every later scan, so
    scanning the same directory again changes nothing (the part of C8 that
    holds). *)
Lemma scan_screenshot_folders_idempotent
    (screenshots_dir : option (list (list ascii * dir_entry)))
    (history : list HistoryEntry) :
  scan_screenshot_folders screenshots_dir
    (scan_screenshot_folders screenshots_dir history)
  = scan_screenshot_folders screenshots_dir history.
Proof.
  destruct screenshots_dir as [entries|]; [|reflexivity]. simpl.
  set (final := foldl scan_folder history entries).
  assert (Hall : ∀ e, e ∈ entries → settled final e)
    by (intros e He; apply foldl_scan_settles, He).
  clearbody final. induction entries as [|e entries IH]; simpl; [reflexivity|].
  rewrite settled_scan_folder by (apply Hall, list_elem_of_here).
  apply IH. intros e' He'. apply Hall, list_elem_of_further, He'.
Qed.

(** The part of C8 that fails: the entry recorded at the end of a new run has
    no [folder] key, so the scan does not recognise the run's folder and
    appends a second entry for it. *)
Lemma scan_folder_after_new_run (history : list HistoryEntry)
    (now listing_name : list ascii) (count : Z) (actual_frames : list Z)
    (listing : list (list ascii)) :
  (∀ h, h ∈ history → folder h ≠ Some now) →
  folder_frame_numbers listing ≠ ∅ →
  ∃ entry,
    scan_folder
      (history ++ [ {| hist_name := listing_name; frames := actual_frames;
                       timestamp := now; folder := None; source := None |} ])
      (now, Folder listing)
    = history
      ++ [ {| hist_name := listing_name; frames := actual_frames;
              timestamp := now; folder := None; source := None |}; entry ]
    ∧ timestamp entry = now ∧ folder entry = Some now.
Proof.
  intros Hnew Hne. unfold scan_folder. cbn [fst snd].
  rewrite existsb_app. simpl.
  assert (existsb (λ h, bool_decide (folder h = Some now)) history = false)
    as ->.
  { apply not_true_iff_false. intros (h & Hin & Hh)%existsb_exists.
    apply bool_decide_eq_true_1 in Hh.
    apply (Hnew h); [apply list_elem_of_In, Hin | exact Hh]. }
  rewrite bool_decide_eq_false_2 by exact Hne.
  eexists. rewrite <- app_assoc. simpl. split; [reflexivity|]. split; reflexivity.
Qed.

(** C8, evaluated on a concrete run.  A new run of two frames records one
    history entry for its folder [20240101_120000]; loading the project
    again scans that folder and adds a second entry for it, with the same
    label and the same frames. *)
Theorem rescan_duplicates_recorded_run :
  (λ h, (timestamp h, folder h, frames h))
    <$> screenshot_history first_session
  = [ (lit "20240101_120000", None, [0; 1]) ]
  ∧ screenshots_dir first_session
    = [ (lit "20240101_120000",
         Folder [ lit "000000_000020_VerA.png"; lit "000001_000021_VerA.png" ]) ]
  ∧ (λ h, (timestamp h, folder h, frames h))
      <$> screenshot_history second_session
    = [ (lit "20240101_120000", None, [0; 1]);
        (lit "20240101_120000", Some (lit "20240101_120000"), [0; 1]) ]
  ∧ hist_name <$> screenshot_history second_session
    = [ history_label (lit "20240101_120000") 2;
        history_label (lit "20240101_120000") 2 ].
Proof. repeat split; vm_compute; reflexivity. Qed.

(** * Further properties of the engine *)

(** ** The older generator *)

Lemma generate_frame_numbers_spec_witness :
  generate_frame_numbers (λ _, O) 10 4 7 = Ok [0; 1; 2].
Proof.
  destruct (generate_frame_numbers_spec (λ _, O) 10 4 7 ltac:(lia))
    as (_ & Hgen).
  destruct (Hgen ltac:(lia)) as (l & Heq & _ & _ & _ & Hall).
  rewrite Heq. f_equal. apply Hall. lia.
Defined.

(** ** File names *)

Lemma zfill_length (width : nat) (s : list ascii) :
  (width ≤ length (zfill width s))%nat.
Proof. unfold zfill. rewrite length_app, length_replicate. lia. Qed.

(** X3. The frame-number field of a file name: reading it back with [int()]
    gives the number, for negative numbers too; it is at least six
    characters wide and contains no underscore, so it ends at the first
    underscore of the file name. *)
Theorem format_06d_roundtrip (n : Z) :
  py_int (format_06d n) = Ok n
  ∧ (6 ≤ length (format_06d n))%nat
  ∧ ("_"%char ∉ format_06d n)
  ∧ (∀ rest, head (split "_" (format_06d n ++ "_"%char :: rest))
             = Some (format_06d n)).
Proof.
  split; [apply py_int_format_06d|]. split; [|split].
  - unfold format_06d. destruct (n <? 0); simpl.
    + pose proof (zfill_length 5 (str_of_N (Z.to_N (- n)))). lia.
    + apply zfill_length.
  - apply format_06d_no_underscore.
  - intros rest. rewrite split_first_field by apply format_06d_no_underscore.
    reflexivity.
Qed.

Lemma format_06d_inj (n m : Z) : format_06d n = format_06d m → n = m.
Proof.
  intros Heq. pose proof (py_int_format_06d n) as Hn.
  rewrite Heq, py_int_format_06d in Hn. congruence.
Qed.

Lemma format_06d_field_inj (n m : Z) (rest rest' : list ascii) :
  format_06d n ++ "_"%char :: rest = format_06d m ++ "_"%char :: rest' →
  n = m ∧ rest = rest'.
Proof.
  intros Heq.
  assert (Hs : split "_" (format_06d n ++ "_"%char :: rest)
               = split "_" (format_06d m ++ "_"%char :: rest'))
    by (rewrite Heq; reflexivity).
  rewrite !split_first_field in Hs by apply format_06d_no_underscore.
  injection Hs as Hf _. apply format_06d_inj in Hf as ->.
  split; [reflexivity|].
  apply app_inv_head in Heq. congruence.
Qed.

(** X4. Two screenshots have the same file name only if they have the same
    aligned frame, the same original frame and the same name part: within
    one folder no screenshot overwrites another unless two videos share their
    sanitized name. *)
Theorem screenshot_filename_inj (a a' o o' : Z) (n n' : list ascii) :
  screenshot_filename a o n = screenshot_filename a' o' n' →
  a = a' ∧ o = o' ∧ n = n'.
Proof.
  unfold screenshot_filename. intros Heq.
  apply format_06d_field_inj in Heq as [-> Heq].
  apply format_06d_field_inj in Heq as [-> Heq].
  apply app_inv_tail in Heq. done.
Qed.

Lemma screenshot_filename_inj_witness :
  (100 : Z) = 100 ∧ (96 : Z) = 96 ∧ lit "VerA" = lit "VerA".
Proof.
  exact (screenshot_filename_inj 100 100 96 96 (lit "VerA") (lit "VerA")
           eq_refl).
Defined.

(** ** What a video contributes *)

Lemma elem_of_frames_to_capture (b t total o : Z) :
  o ∈ frames_to_capture b t total ↔ 0 ≤ o < total ∧ b - t ≤ o ≤ b + t.
Proof.
  unfold frames_to_capture, py_range.
  rewrite list_elem_of_filter, fmap_add_seqZ, elem_of_seqZ. lia.
Qed.

Lemma capture_window_ok {F : Type} `{PyFloat F} (ratio : F)
    (video : VideoEntry) (total a : Z) (window : list Z) :
  capture_window ratio video total a = Ok window →
  ∃ b, base_frame ratio (offset video) a = Ok b
       ∧ window = frames_to_capture b (tolerance video) total.
Proof.
  unfold capture_window.
  destruct (base_frame ratio (offset video) a) as [b|]; [|discriminate].
  cbn [mbind result_bind].
  destruct (bool_decide _ && bool_decide _); [discriminate|].
  intros [= <-]. exists b. done.
Qed.

Lemma saved_frames_aligned {F : Type} `{PyFloat F} (ratio : F)
    (video : VideoEntry) (total : Z) (frame_numbers : list Z) (a o : Z) :
  (a, o) ∈ saved_frames ratio video total frame_numbers →
  a ∈ frame_numbers
  ∧ ∃ window, capture_window ratio video total a = Ok window ∧ o ∈ window.
Proof.
  unfold saved_frames. intros (a0 & Hin & Ha0)%list_elem_of_bind.
  destruct (capture_window ratio video total a0) as [window|] eqn:Hw;
    [|by apply elem_of_nil in Hin].
  apply list_elem_of_fmap in Hin as (o' & [= -> ->] & Ho).
  split; [exact Ha0|]. exists window. done.
Qed.

(** X5. Every screenshot taken for a video has an aligned frame of the frame
    set and an original frame that lies inside the clip, [0 <= o < total],
    and within the video's tolerance of the base frame: the decoder is never
    asked for a frame outside the clip, whatever the offset and the rates. *)
Theorem saved_frames_in_domain {F : Type} `{PyFloat F} (ratio : F)
    (video : VideoEntry) (total : Z) (frame_numbers : list Z) (a o : Z) :
  (a, o) ∈ saved_frames ratio video total frame_numbers →
  a ∈ frame_numbers
  ∧ 0 ≤ o < total
  ∧ ∃ b, base_frame ratio (offset video) a = Ok b
         ∧ b - tolerance video ≤ o ≤ b + tolerance video.
Proof.
  intros (Ha & window & Hw & Ho)%saved_frames_aligned.
  apply capture_window_ok in Hw as (b & Hb & ->).
  apply elem_of_frames_to_capture in Ho as [Hdom Htol].
  split; [exact Ha|]. split; [exact Hdom|]. exists b. done.
Qed.

Lemma saved_frames_in_domain_witness :
  0 ≤ 63848 < 100000.
Proof.
  refine (proj1 (proj2 (saved_frames_in_domain (F:=xfloat)
    (Fin ((2997 # 100) / (25 # 1))) scenario_A_video 100000 [52986]
    52986 63848 _))).
  vm_compute. apply list_elem_of_here.
Defined.

(** X6. The three outcomes of the window of one aligned frame, given its base
    frame [b].  With a positive tolerance and no frame of the clip within
    tolerance, the log line raises [IndexError] and the frame is reported as
    failed.  With tolerance 0 the window is [[b]] when [b] is in the clip and
    empty otherwise, without any report.  With a negative tolerance the
    window is always empty: the video gets no screenshot at all. *)
Theorem capture_window_outcomes {F : Type} `{PyFloat F} (ratio : F)
    (video : VideoEntry) (total a b : Z) :
  base_frame ratio (offset video) a = Ok b →
  (capture_window ratio video total a = Raise IndexError
   ↔ 0 < tolerance video
     ∧ (total ≤ 0 ∨ total ≤ b - tolerance video ∨ b + tolerance video < 0))
  ∧ (∀ e, capture_window ratio video total a = Raise e → e = IndexError)
  ∧ (tolerance video = 0 → 0 ≤ b < total →
     capture_window ratio video total a = Ok [b])
  ∧ (tolerance video = 0 → ¬ (0 ≤ b < total) →
     capture_window ratio video total a = Ok [])
  ∧ (tolerance video < 0 → capture_window ratio video total a = Ok []).
Proof.
  intros Hb. unfold capture_window. rewrite Hb. cbn [mbind result_bind].
  set (t := tolerance video).
  assert (Hempty : 0 ≤ t →
    (frames_to_capture b t total = []
     ↔ total ≤ 0 ∨ total ≤ b - t ∨ b + t < 0)).
  { intros Ht. rewrite frames_to_capture_interval by exact Ht. split.
    - intros Hnil.
      destruct (Z_lt_le_dec (Z.max 0 (b - t)) (Z.min total (b + t + 1)))
        as [Hlt|Hle]; [|lia].
      rewrite seqZ_cons in Hnil by lia. discriminate.
    - intros Hout. apply seqZ_nil. lia. }
  split; [|split; [|split; [|split]]].
  - destruct (bool_decide_reflect (0 < t)) as [Ht|Ht]; simpl.
    + destruct (bool_decide_reflect (frames_to_capture b t total = []))
        as [Hnil|Hne].
      * split; [|done]. intros _. split; [exact Ht|]. apply Hempty; [lia|done].
      * split; [discriminate|]. intros [_ Hout]. exfalso. apply Hne.
        apply Hempty; [lia | exact Hout].
    + split; [discriminate | intros [? _]; lia].
  - intros e. destruct (bool_decide _ && bool_decide _); [|discriminate].
    intros [= <-]. reflexivity.
  - intros Ht Hdom. rewrite Ht. simpl.
    rewrite frames_to_capture_interval by lia.
    replace (Z.max 0 (b - 0)) with b by lia.
    replace (Z.min total (b + 0 + 1) - b) with 1 by lia. reflexivity.
  - intros Ht Hdom. rewrite Ht. simpl.
    rewrite frames_to_capture_interval by lia. rewrite seqZ_nil by lia.
    reflexivity.
  - intros Ht. rewrite bool_decide_eq_false_2 by lia. simpl.
    unfold frames_to_capture, py_range. rewrite seqZ_nil by lia. reflexivity.
Qed.

Lemma capture_window_outcomes_witness :
  capture_window (F:=xfloat) (Fin 1)
    {| name := lit "VerA"; offset := 5000; tolerance := 2;
       video_fps := []; screenshot_fps := [] |} 1000 10
  = Raise IndexError.
Proof.
  refine (proj2 (proj1 (capture_window_outcomes (F:=xfloat) (Fin 1)
    {| name := lit "VerA"; offset := 5000; tolerance := 2;
       video_fps := []; screenshot_fps := [] |} 1000 10 5010 _)) _).
  - vm_compute. reflexivity.
  - simpl. lia.
Defined.

(** X7. The screenshots of a video are taken in the order of the frame set and,
    for one aligned frame, by ascending original frame: for a strictly
    ascending frame set the list of (aligned, original) pairs is strictly
    ascending, so no pair occurs twice. *)
Theorem saved_frames_ascending {F : Type} `{PyFloat F} (ratio : F)
    (video : VideoEntry) (total : Z) (frame_numbers : list Z) :
  StronglySorted Z.lt frame_numbers →
  StronglySorted task_lt (saved_frames ratio video total frame_numbers)
  ∧ NoDup (saved_frames ratio video total frame_numbers).
Proof.
  intros Hsorted.
  assert (Hs : StronglySorted task_lt
                 (saved_frames ratio video total frame_numbers)).
  { induction Hsorted as [|a fs Hfs IH Hall].
    - constructor.
    - change (saved_frames ratio video total (a :: fs))
        with (match capture_window ratio video total a with
              | Ok window => (λ o, (a, o)) <$> window
              | Raise _ => []
              end ++ saved_frames ratio video total fs).
      apply StronglySorted_app_2; [| |exact IH].
      + intros p q Hp Hq. destruct q as [a' o'].
        apply saved_frames_aligned in Hq as (Ha' & _).
        rewrite Forall_forall in Hall. specialize (Hall a' Ha').
        destruct (capture_window ratio video total a);
          [|by apply elem_of_nil in Hp].
        apply list_elem_of_fmap in Hp as (o & -> & _). left. exact Hall.
      + destruct (capture_window ratio video total a) as [window|] eqn:Hw;
          [|constructor].
        apply capture_window_ok in Hw as (b & _ & ->).
        apply (StronglySorted_fmap _ Z.lt); [intros x y Hxy; right; done|].
        destruct (Z_le_gt_dec 0 (tolerance video)) as [Ht|Ht].
        * rewrite frames_to_capture_interval by exact Ht.
          apply seqZ_strongly_sorted.
        * unfold frames_to_capture, py_range. rewrite seqZ_nil by lia.
          constructor. }
  split; [exact Hs|].
  clear Hsorted. induction Hs as [|p l Hl IH Hp]; constructor; [|exact IH].
  intros Hin. rewrite Forall_forall in Hp. specialize (Hp p Hin).
  unfold task_lt in Hp. lia.
Qed.

Lemma saved_frames_ascending_witness :
  NoDup (saved_frames (F:=xfloat) (Fin ((2997 # 100) / (25 # 1)))
           scenario_A_video 100000 [10; 52986]).
Proof.
  refine (proj2 (saved_frames_ascending (F:=xfloat)
    (Fin ((2997 # 100) / (25 # 1))) scenario_A_video 100000 [10; 52986] _)).
  repeat constructor; lia.
Defined.

(** ** Order of the mapped frames *)

Lemma base_frame_exact_value (q : Q) (off a : Z) :
  base_frame (Fin q) off a
  = Ok (if need_fps_conversion (Fin q)
        then Z.quot (Qnum (inject_Z a * q)) (Z.pos (Qden (inject_Z a * q))) + off
        else a + off).
Proof. unfold base_frame. destruct (need_fps_conversion (Fin q)); reflexivity. Qed.

(** X8. In binary64 the mapping keeps the order of the frames when it does
    not scale them down.  For a ratio that takes the branch without
    conversion, or that is finite with exact value [rho >= 1], and frames
    [0 <= a <= a' < 2^53] with [a' * rho < 2^52]: both source frames are
    computed and [b <= b'].  Without conversion the order is strict. *)
Theorem base_frame_monotone (ratio : float) (rho : Q) (off a a' : Z) :
  float_value ratio = Some rho →
  need_fps_conversion ratio = false ∨ (1 <= rho)%Q →
  0 ≤ a ≤ a' → a' < 2 ^ 53 →
  (inject_Z a' * rho < inject_Z (2 ^ 52))%Q →
  ∃ b b',
    base_frame ratio off a = Ok b
    ∧ base_frame ratio off a' = Ok b'
    ∧ b ≤ b'
    ∧ (need_fps_conversion ratio = false → a < a' → b < b').
Proof.
  intros Hval Hcase Ha Ha' Hlt.
  destruct (need_fps_conversion ratio) eqn:Hneed.
  - destruct Hcase as [|Hge]; [discriminate|].
    assert (Hnn : (0 <= rho)%Q) by lra.
    assert (Hle : (inject_Z a * rho <= inject_Z a' * rho)%Q).
    { apply Qmult_le_compat_r; [|exact Hnn]. rewrite <- Zle_Qle. lia. }
    destruct (base_frame_binary64 ratio rho off a ltac:(lia) Hval Hnn
                ltac:(lra)) as [Hconv _].
    destruct (base_frame_binary64 ratio rho off a' ltac:(lia) Hval Hnn Hlt)
      as [Hconv' _].
    destruct (Hconv Hneed) as (c & Hc & Hbr).
    destruct (Hconv' Hneed) as (c' & Hc' & Hbr').
    exists (c + off), (c' + off).
    split; [exact Hc|]. split; [exact Hc'|]. split; [|discriminate].
    destruct (Z.eq_dec a a') as [<-|Hne].
    + rewrite Hc in Hc'. injection Hc' as Heq. lia.
    + assert (Hstep : Qfloor (inject_Z a * rho) + 1
                      ≤ Qfloor (inject_Z a' * rho)); [|lia].
      rewrite <- (Qfloor_Z (Qfloor (inject_Z a * rho) + 1)).
      apply Qfloor_resp_le. rewrite inject_Z_plus.
      pose proof (Qfloor_le (inject_Z a * rho)) as Hfl.
      assert (Hsucc : (inject_Z (a + 1) * rho <= inject_Z a' * rho)%Q).
      { apply Qmult_le_compat_r; [|exact Hnn]. rewrite <- Zle_Qle. lia. }
      rewrite inject_Z_plus in Hsucc.
      assert (Hexp : ((inject_Z a + inject_Z 1) * rho
                      == inject_Z a * rho + rho)%Q) by ring.
      rewrite Hexp in Hsucc. change (inject_Z 1) with 1%Q. lra.
  - exists (a + off), (a' + off).
    rewrite !base_frame_no_conversion by exact Hneed.
    split; [reflexivity|]. split; [reflexivity|]. split; [lia|]. intros; lia.
Qed.

Lemma base_frame_monotone_witness :
  ∃ b b',
    base_frame 0x1.32e48e8a71de6p+0%float 332 52986 = Ok b
    ∧ base_frame 0x1.32e48e8a71de6p+0%float 332 52987 = Ok b'
    ∧ b ≤ b'.
Proof.
  destruct (base_frame_monotone 0x1.32e48e8a71de6p+0%float
              (inject_Z 5398915233291750 * Qpower (2 # 1) (-52))%Q
              332 52986 52987)
    as (b & b' & Hb & Hb' & Hle & _).
  - vm_compute. reflexivity.
  - right. vm_compute. discriminate.
  - lia.
  - lia.
  - vm_compute. reflexivity.
  - exists b, b'. done.
Defined.

(** * Further properties of the history *)

Lemma known_folder_false (history : list HistoryEntry) (folder_name : list ascii) :
  existsb (λ h, bool_decide (folder h = Some folder_name)) history = false
  ↔ ∀ h, h ∈ history → folder h ≠ Some folder_name.
Proof.
  rewrite <- not_true_iff_false, existsb_exists. split.
  - intros Hno h Hin Hh. apply Hno. exists h.
    split; [apply list_elem_of_In, Hin | apply bool_decide_eq_true_2, Hh].
  - intros Hall (h & Hin & Hh). apply bool_decide_eq_true_1 in Hh.
    apply (Hall h); [apply list_elem_of_In, Hin | exact Hh].
Qed.

Lemma scan_folder_cases (history : list HistoryEntry)
    (entry : list ascii * dir_entry) :
  scan_folder history entry = history
  ∨ ∃ listing,
      entry.2 = Folder listing
      ∧ (∀ h, h ∈ history → folder h ≠ Some entry.1)
      ∧ folder_frame_numbers listing ≠ ∅
      ∧ scan_folder history entry
        = history ++ [scanned_entry entry.1 listing].
Proof.
  unfold scan_folder. destruct (entry.2) as [|listing]; [left; reflexivity|].
  destruct (existsb _ history) eqn:Hk; [left; reflexivity|].
  destruct (bool_decide_reflect (folder_frame_numbers listing = ∅)) as [|Hne];
    [left; reflexivity|].
  right. exists listing. split; [reflexivity|].
  split; [apply known_folder_false, Hk|]. split; [exact Hne | reflexivity].
Qed.

Lemma sorted_elements_nonempty (X : gset Z) :
  X ≠ ∅ → sorted (elements X) ≠ [].
Proof.
  intros Hne Hnil. apply Hne.
  apply leibniz_equiv, elements_empty_iff.
  apply Permutation_nil_r. rewrite <- Hnil. symmetry. apply sorted_perm.
Qed.

(** X11. The folder scan only appends: the history it is given is a prefix of
    its result, in the same order.  Every entry it appends stands for a
    folder of the directory that no earlier entry had as its [folder]; it
    carries that folder as [folder] and [timestamp], the source [folder], a
    non-empty strictly ascending frame list read off the folder's files, and
    a label made of the folder name and the number of those frames. *)
Theorem scan_appends_folder_entries
    (entries : list (list ascii * dir_entry)) :
  ∀ history : list HistoryEntry,
    ∃ new,
      scan_screenshot_folders (Some entries) history = history ++ new
      ∧ Forall (λ e, ∃ folder_name listing,
                  (folder_name, Folder listing) ∈ entries
                  ∧ e = scanned_entry folder_name listing
                  ∧ frames e ≠ []
                  ∧ StronglySorted Z.lt (frames e)
                  ∧ ∀ h, h ∈ history → folder h ≠ Some folder_name) new.
Proof.
  induction entries as [|entry entries IH]; intros history.
  - exists []. split; [symmetry; apply app_nil_r | constructor].
  - change (scan_screenshot_folders (Some (entry :: entries)) history)
      with (scan_screenshot_folders (Some entries) (scan_folder history entry)).
    destruct (scan_folder_cases history entry)
      as [->|(listing & Hentry & Hnew & Hne & ->)].
    + destruct (IH history) as (new & -> & Hall). exists new.
      split; [reflexivity|]. eapply Forall_impl; [exact Hall|].
      intros e (fname & l & Hin & ? & ? & ? & ?). exists fname, l.
      split; [apply list_elem_of_further, Hin | done].
    + destruct (IH (history ++ [scanned_entry entry.1 listing]))
        as (new & -> & Hall).
      exists (scanned_entry entry.1 listing :: new).
      split; [rewrite <- app_assoc; reflexivity|].
      constructor.
      * exists entry.1, listing. split.
        { destruct entry as [fname d]. simpl in *. subst d.
          apply list_elem_of_here. }
        split; [reflexivity|]. split; [apply sorted_elements_nonempty, Hne|].
        split; [apply sorted_elements_strongly | exact Hnew].
      * eapply Forall_impl; [exact Hall|].
        intros e (fname & l & Hin & ? & ? & ? & Hold). exists fname, l.
        split; [apply list_elem_of_further, Hin|].
        repeat (split; [assumption|]).
        intros h Hh. apply Hold, elem_of_app. left. exact Hh.
Qed.

(** X12. The folder scan keeps the [folder] keys of the history distinct: if no
    two entries share a folder before the scan, none do after it. *)
Theorem scan_keeps_folders_distinct
    (entries : list (list ascii * dir_entry)) :
  ∀ history : list HistoryEntry,
    NoDup (omap folder history) →
    NoDup (omap folder (scan_screenshot_folders (Some entries) history)).
Proof.
  induction entries as [|entry entries IH]; intros history Hnd; [exact Hnd|].
  change (scan_screenshot_folders (Some (entry :: entries)) history)
    with (scan_screenshot_folders (Some entries) (scan_folder history entry)).
  apply IH.
  destruct (scan_folder_cases history entry)
    as [->|(listing & _ & Hnew & _ & ->)]; [exact Hnd|].
  rewrite omap_app. simpl. apply NoDup_app. split; [exact Hnd|].
  split; [|apply NoDup_singleton].
  intros x Hx Hx'. apply list_elem_of_singleton in Hx' as ->.
  apply list_elem_of_omap in Hx as (h & Hh & Hf). exact (Hnew h Hh Hf).
Qed.

Lemma scan_keeps_folders_distinct_witness :
  NoDup (omap folder (screenshot_history second_session)).
Proof.
  refine (scan_keeps_folders_distinct (screenshots_dir first_session)
            (screenshot_history first_session) _).
  vm_compute. constructor.
Defined.

(** ** Choosing a history entry *)

(** X14. The history box selects by name, and the first entry with the name
    wins: the lookup finds nothing exactly when no entry has the name, and
    otherwise returns the frames of an entry before which no entry has it. *)
Theorem lookup_history_first (history : list HistoryEntry)
    (use_history : list ascii) :
  (lookup_history history use_history = None
   ↔ ∀ h, h ∈ history → hist_name h ≠ use_history)
  ∧ (∀ frame_numbers,
       lookup_history history use_history = Some frame_numbers →
       ∃ before h after,
         history = before ++ h :: after
         ∧ hist_name h = use_history
         ∧ frames h = frame_numbers
         ∧ ∀ h', h' ∈ before → hist_name h' ≠ use_history).
Proof.
  induction history as [|h history [IHnone IHsome]]; simpl.
  - split; [split; [intros _ h Hh; by apply elem_of_nil in Hh | done]|].
    discriminate.
  - destruct (bool_decide_reflect (hist_name h = use_history)) as [Heq|Hne].
    + split.
      * split; [discriminate|]. intros Hall. exfalso.
        apply (Hall h); [apply list_elem_of_here | exact Heq].
      * intros fs [= <-]. exists [], h, history.
        split; [reflexivity|]. split; [exact Heq|]. split; [reflexivity|].
        intros h' Hh'. by apply elem_of_nil in Hh'.
    + split.
      * rewrite IHnone. split.
        -- intros Hall h' [->|Hin]%elem_of_cons; [exact Hne | auto].
        -- intros Hall h' Hin. apply Hall, list_elem_of_further, Hin.
      * intros fs Hfs.
        destruct (IHsome fs Hfs) as (before & h0 & after & -> & ? & ? & Hb).
        exists (h :: before), h0, after.
        split; [reflexivity|]. split; [assumption|]. split; [assumption|].
        intros h' [->|Hin]%elem_of_cons; [exact Hne | auto].
Qed.

Lemma history_label_not_new (label : list ascii) (n : Z) :
  history_label label n ≠ lit "新建".
Proof.
  unfold history_label. intros Heq. apply (f_equal last) in Heq.
  rewrite !app_assoc in Heq.
  change (lit ")") with [")"%char] in Heq. rewrite last_snoc in Heq.
  vm_compute in Heq. discriminate.
Qed.

Lemma process_video_no_frames {F : Type} `{PyFloat F} (os : os_path)
    (load_video_clip : VideoEntry → bool → result Clip)
    (videos : list VideoEntry) :
  written_files (process_video os load_video_clip [] <$> videos) = [].
Proof.
  induction videos as [|video videos IH]; [reflexivity|].
  rewrite fmap_cons. unfold written_files in *. rewrite bind_cons, IH.
  rewrite app_nil_r. unfold process_video.
  destruct (load_video_clip video true) as [clip|]; [|reflexivity].
  cbn [mbind result_bind].
  destruct (video_fps_of video clip) as [vf|]; [|reflexivity].
  cbn [mbind result_bind].
  destruct (parse_screenshot_fps (screenshot_fps video)) as [sf|];
    [|reflexivity].
  cbn [mbind result_bind].
  destruct (float_truediv vf sf); reflexivity.
Qed.

(** The files of a new run are those of its frame numbers. *)
Lemma new_run_written_files {F : Type} `{PyFloat F} (os : os_path)
    (load_video_clip : VideoEntry → bool → result Clip) (rng : nat → nat)
    (videos : list VideoEntry) (count a b : Z) (frame_numbers : list Z)
    (outcomes : list (result (list (list ascii)))) :
  take_screenshots_enhanced_with_frames os load_video_clip rng videos count
    None a b = Ok (frame_numbers, outcomes) →
  written_files outcomes
  = written_files (process_video os load_video_clip frame_numbers <$> videos).
Proof.
  unfold take_screenshots_enhanced_with_frames.
  destruct videos as [|first_video others]; [intros [= <- <-]; reflexivity|].
  destruct (load_video_clip first_video false) as [clip|].
  - destruct (new_frame_numbers rng (num_frames clip) count a b) as [[s e|l]|];
      cbn [mbind result_bind].
    + intros [= <- <-]. symmetry. apply process_video_no_frames.
    + intros [= <- <-]. reflexivity.
    + discriminate.
  - intros [= <- <-]. symmetry. apply process_video_no_frames.
Qed.

(** X15. A new run can be replayed from the history.  When a run ends normally,
    its label finds its frame numbers in the history (if no earlier entry
    has the same label), and choosing that label later, with the same
    videos, writes a folder with the same file names as the run wrote,
    whatever the count, the range and the random choices then are; the
    replay leaves the history as it is. *)
Theorem replay_reproduces_run {F : Type} `{PyFloat F} (os : os_path)
    (load_video_clip : VideoEntry → bool → result Clip)
    (rng rng' : nat → nat) (st : AppState) (selected_videos : list VideoEntry)
    (count count' a b a' b' : Z) (now now' : list ascii)
    (frame_numbers : list Z) (outcomes : list (result (list (list ascii)))) :
  selected_videos ≠ [] →
  take_screenshots_enhanced_with_frames os load_video_clip rng selected_videos
    count None a b = Ok (frame_numbers, outcomes) →
  (∀ h, h ∈ screenshot_history st → hist_name h ≠ history_label now count) →
  screenshots_dir
    (start_screenshot os load_video_clip rng st selected_videos count now a b)
  = screenshots_dir st ++ [(now, Folder (written_files outcomes))]
  ∧ lookup_history
      (screenshot_history
         (start_screenshot os load_video_clip rng st selected_videos count
            now a b))
      (history_label now count)
    = Some frame_numbers
  ∧ start_screenshot_with os load_video_clip rng'
      (start_screenshot os load_video_clip rng st selected_videos count now a b)
      selected_videos (history_label now count) count' now' a' b'
    = {| screenshot_history :=
           screenshot_history
             (start_screenshot os load_video_clip rng st selected_videos count
                now a b);
         screenshots_dir :=
           screenshots_dir
             (start_screenshot os load_video_clip rng st selected_videos count
                now a b)
           ++ [(now', Folder (written_files outcomes))] |}.
Proof.
  intros Hsel Hrun Hfresh.
  assert (Hst : start_screenshot os load_video_clip rng st selected_videos
                  count now a b
    = {| screenshot_history :=
           screenshot_history st ++
             [ {| hist_name := history_label now count;
                  frames := frame_numbers; timestamp := now;
                  folder := None; source := None |} ];
         screenshots_dir :=
           screenshots_dir st ++ [(now, Folder (written_files outcomes))] |})
    by (unfold start_screenshot; rewrite Hrun; reflexivity).
  assert (Hlook : lookup_history
            (screenshot_history st ++
               [ {| hist_name := history_label now count;
                    frames := frame_numbers; timestamp := now;
                    folder := None; source := None |} ])
            (history_label now count) = Some frame_numbers).
  { clear Hst. induction (screenshot_history st) as [|h hs IH]; simpl.
    - rewrite bool_decide_eq_true_2 by reflexivity. reflexivity.
    - rewrite bool_decide_eq_false_2
        by (apply Hfresh, list_elem_of_here).
      apply IH. intros h' Hh'. apply Hfresh, list_elem_of_further, Hh'. }
  rewrite Hst. cbn [screenshot_history screenshots_dir].
  split; [reflexivity|]. split; [exact Hlook|].
  unfold start_screenshot_with.
  destruct selected_videos as [|v vs]; [done|].
  rewrite bool_decide_eq_false_2 by apply history_label_not_new.
  cbn [screenshot_history screenshots_dir]. rewrite Hlook.
  cbn [take_screenshots_enhanced_with_frames].
  rewrite (new_run_written_files _ _ _ _ _ _ _ _ _ Hrun). reflexivity.
Qed.

Lemma replay_reproduces_run_witness :
  lookup_history (screenshot_history first_session)
    (history_label (lit "20240101_120000") 2)
  = Some [0; 1].
Proof.
  refine (proj1 (proj2 (replay_reproduces_run (F:=float) ntpath sample_decoder
    (λ _, O) (λ _, O) {| screenshot_history := []; screenshots_dir := [] |}
    [video_with_rates (lit "25.00") (lit "25.00")] 2 0 0 0 0 0
    (lit "20240101_120000") (lit "20240102_120000") [0; 1]
    [Ok [lit "000000_000020_VerA.png"; lit "000001_000021_VerA.png"]]
    _ _ _))).
  - discriminate.
  - vm_compute. reflexivity.
  - intros h Hh. by apply elem_of_nil in Hh.
Defined.

(** ** Runs and the folders they leave *)

Lemma run_written_files {F : Type} `{PyFloat F} (os : os_path)
    (load_video_clip : VideoEntry → bool → result Clip) (rng : nat → nat)
    (videos : list VideoEntry) (count a b : Z) (given : option (list Z))
    (frame_numbers : list Z) (outcomes : list (result (list (list ascii)))) :
  take_screenshots_enhanced_with_frames os load_video_clip rng videos count
    given a b = Ok (frame_numbers, outcomes) →
  written_files outcomes
  = written_files (process_video os load_video_clip frame_numbers <$> videos).
Proof.
  destruct given as [fs|]; [|apply new_run_written_files].
  intros [= <- <-]. reflexivity.
Qed.

Lemma elem_of_written_files (outcomes : list (result (list (list ascii))))
    (f : list ascii) :
  f ∈ written_files outcomes ↔ ∃ files, Ok files ∈ outcomes ∧ f ∈ files.
Proof.
  unfold written_files. rewrite list_elem_of_bind. split.
  - intros ([files|e] & Hf & Ho); [exists files; done|].
    by apply elem_of_nil in Hf.
  - intros (files & Ho & Hf). exists (Ok files). done.
Qed.

(** X13. The frame numbers that the folder scan reads off the folder of a run,
    new or replayed, are frame numbers of that run: the entry the scan makes
    for the folder never holds a frame the run did not use.  (It can hold
    fewer: an aligned frame for which no video had a frame in range leaves
    no file.) *)
Theorem scan_recovers_run_frames {F : Type} `{PyFloat F} (os : os_path)
    (load_video_clip : VideoEntry → bool → result Clip) (rng : nat → nat)
    (videos : list VideoEntry) (count a b : Z) (given : option (list Z))
    (frame_numbers : list Z) (outcomes : list (result (list (list ascii)))) :
  take_screenshots_enhanced_with_frames os load_video_clip rng videos count
    given a b = Ok (frame_numbers, outcomes) →
  ∀ x, x ∈ sorted (elements (folder_frame_numbers (written_files outcomes))) →
       x ∈ frame_numbers.
Proof.
  intros Hrun x Hx. apply elem_of_sorted_elements in Hx.
  apply elem_of_folder_frame_numbers in Hx as (f & Hf & Hx).
  rewrite (run_written_files _ _ _ _ _ _ _ _ _ _ Hrun) in Hf.
  apply elem_of_written_files in Hf as (files & Hfiles & Hf).
  apply list_elem_of_fmap in Hfiles as (video & Hfiles & _).
  symmetry in Hfiles.
  apply process_video_files in Hfiles as (tasks & -> & Htasks).
  apply list_elem_of_fmap in Hf as (t & -> & Ht).
  rewrite add_frame_of_screenshot in Hx.
  assert (x = t.1.1) as -> by set_solver. apply Htasks, Ht.
Qed.

Lemma scan_recovers_run_frames_witness : (1 : Z) ∈ [0; 1].
Proof.
  refine (scan_recovers_run_frames (F:=float) ntpath sample_decoder (λ _, O)
    [video_with_rates (lit "25.00") (lit "25.00")] 2 0 0 None [0; 1]
    [Ok [lit "000000_000020_VerA.png"; lit "000001_000021_VerA.png"]] _ 1 _).
  - vm_compute. reflexivity.
  - apply elem_of_sorted_elements, elem_of_folder_frame_numbers.
    exists (lit "000001_000021_VerA.png").
    split; [apply list_elem_of_further, list_elem_of_here|].
    vm_compute. reflexivity.
Defined.

(** X16. Runs that yield no frame.  With a first video that loads: a negative
    count on a valid range makes the run raise, and [start_screenshot] then
    records nothing; an invalid range makes the run return the empty list,
    and [start_screenshot] still records an entry, with no frames.  Either
    way the run's folder stays empty, and the folder scan makes no entry for
    an empty folder. *)
Theorem start_screenshot_without_frames {F : Type} `{PyFloat F}
    (os : os_path) (load_video_clip : VideoEntry → bool → result Clip)
    (rng : nat → nat) (st : AppState) (first_video : VideoEntry)
    (others : list VideoEntry) (clip : Clip) (count a b : Z)
    (now : list ascii) :
  load_video_clip first_video false = Ok clip →
  (Z.max 0 a < Z.min (if 0 <? b then b else num_frames clip) (num_frames clip)
   → count < 0 →
   start_screenshot os load_video_clip rng st (first_video :: others) count
     now a b
   = {| screenshot_history := screenshot_history st;
        screenshots_dir := screenshots_dir st ++ [(now, Folder [])] |})
  ∧ (Z.min (if 0 <? b then b else num_frames clip) (num_frames clip)
     ≤ Z.max 0 a →
     start_screenshot os load_video_clip rng st (first_video :: others) count
       now a b
     = {| screenshot_history :=
            screenshot_history st ++
              [ {| hist_name := history_label now count; frames := [];
                   timestamp := now; folder := None; source := None |} ];
          screenshots_dir := screenshots_dir st ++ [(now, Folder [])] |})
  ∧ (∀ history, scan_folder history (now, Folder []) = history).
Proof.
  intros Hload. split; [|split].
  - intros Hrange Hcount. unfold start_screenshot,
      take_screenshots_enhanced_with_frames, new_frame_numbers.
    rewrite Hload.
    destruct (Z.leb_spec
      (Z.min (if 0 <? b then b else num_frames clip) (num_frames clip))
      (Z.max 0 a)); [lia|].
    unfold random_sample.
    match goal with
    | |- context [if ?c <? count then _ else _] =>
        destruct (Z.ltb_spec c count); [lia|]
    end.
    destruct (Z.ltb_spec count 0); [|lia]. reflexivity.
  - intros Hrange. unfold start_screenshot.
    rewrite (invalid_range_returns_nothing os load_video_clip rng first_video
               others clip count a b Hload Hrange).
    reflexivity.
  - intros history. unfold scan_folder. cbn [fst snd].
    destruct (existsb _ history); reflexivity.
Qed.

Lemma start_screenshot_without_frames_witness :
  start_screenshot (F:=float) ntpath sample_decoder (λ _, O)
    {| screenshot_history := []; screenshots_dir := [] |}
    [video_with_rates (lit "25.00") (lit "25.00")] (-3)
    (lit "20240101_120000") 0 0
  = {| screenshot_history := [];
       screenshots_dir := [(lit "20240101_120000", Folder [])] |}.
Proof.
  refine (proj1 (start_screenshot_without_frames (F:=float) ntpath
    sample_decoder (λ _, O)
    {| screenshot_history := []; screenshots_dir := [] |}
    (video_with_rates (lit "25.00") (lit "25.00")) []
    {| num_frames := 1000; fps_num := 25; fps_den := 1 |} (-3) 0 0
    (lit "20240101_120000") _) _ _).
  - reflexivity.
  - simpl. lia.
  - lia.
Defined.

(** ** The oldest entry point *)

Lemma generate_frame_numbers_range (rng : nat → nat)
    (total_frames count video_offset : Z) :
  0 ≤ count →
  ∃ l, generate_frame_numbers rng total_frames count video_offset = Ok l
       ∧ ∀ x, x ∈ l → 0 ≤ x < total_frames - video_offset.
Proof.
  intros Hcount. unfold generate_frame_numbers, py_range.
  set (available := total_frames - video_offset).
  replace (available - 0) with available by lia.
  destruct (Z.leb_spec available 0).
  - exists []. split; [reflexivity|]. intros x Hx. by apply elem_of_nil in Hx.
  - destruct (Z.leb_spec available count).
    + exists (seqZ 0 available). split; [reflexivity|].
      intros x Hx. apply elem_of_seqZ in Hx. lia.
    + destruct (sorted_sample_range rng 0 available count)
        as (l & Hs & _ & Hin & _); [lia|].
      exists (sorted l). rewrite Hs. split; [reflexivity|].
      intros x Hx. specialize (Hin x Hx). lia.
Qed.

(** X2. In [take_screenshots] the range test never fires: for a count that is
    not negative, every generated frame number is used, and the frame asked
    of the decoder is the frame number plus the offset, inside
    [[offset, total_frames)].  With an offset that is not negative this is a
    frame of the clip. *)
Theorem take_screenshots_requests_spec (rng : nat → nat)
    (total_frames count video_offset : Z) :
  0 ≤ count →
  ∃ frame_numbers,
    generate_frame_numbers rng total_frames count video_offset
    = Ok frame_numbers
    ∧ take_screenshots_requests rng total_frames count video_offset
      = Ok ((λ frame_num, (frame_num, frame_num + video_offset))
              <$> frame_numbers)
    ∧ ∀ frame_num, frame_num ∈ frame_numbers →
        video_offset ≤ frame_num + video_offset < total_frames.
Proof.
  intros Hcount.
  destruct (generate_frame_numbers_range rng total_frames count video_offset
              Hcount) as (l & Hgen & Hin).
  exists l. split; [exact Hgen|]. split.
  - unfold take_screenshots_requests. rewrite Hgen. cbn [mbind result_bind].
    f_equal. clear Hgen. induction l as [|x l IH]; [reflexivity|].
    simpl. specialize (Hin x (list_elem_of_here _ _)) as Hx.
    destruct (Z.leb_spec total_frames (x + video_offset)); [lia|].
    simpl. f_equal. apply IH. intros y Hy.
    apply Hin, list_elem_of_further, Hy.
  - intros x Hx. specialize (Hin x Hx). lia.
Qed.

Lemma take_screenshots_requests_spec_witness :
  take_screenshots_requests (λ _, O) 10 4 7 = Ok [(0, 7); (1, 8); (2, 9)].
Proof.
  destruct (take_screenshots_requests_spec (λ _, O) 10 4 7 ltac:(lia))
    as (l & Hgen & Hreq & _).
  rewrite Hreq.
  assert (l = [0; 1; 2]) as -> by (vm_compute in Hgen; congruence).
  reflexivity.
Defined.

(** ** The older PAL-to-NTSC formula *)

(** X9. For a video whose rates are entered as 29.97 and 25, the engine maps
    every aligned frame to the same source frame as the PAL-to-NTSC formula
    of the older entry point [take_screenshots_enhanced], both in exact
    arithmetic and in binary64.  In exact arithmetic that frame is
    [aligned_frame * 2997 / 2500], truncated towards zero, plus the
    offset. *)
Theorem pal_to_ntsc_matches_engine (video : VideoEntry) (clip : Clip)
    (aligned_frame : Z) :
  video_fps video = lit "29.97" → screenshot_fps video = lit "25" →
  (∃ ratio : xfloat,
     (vf ← video_fps_of video clip;
      sf ← parse_screenshot_fps (screenshot_fps video);
      float_truediv vf sf) = Ok ratio
     ∧ base_frame ratio (offset video) aligned_frame
       = pal_to_ntsc_base_frame (F:=xfloat) (offset video) aligned_frame
     ∧ base_frame ratio (offset video) aligned_frame
       = Ok (Z.quot (aligned_frame * 2997) 2500 + offset video))
  ∧ (∃ ratio : float,
       (vf ← video_fps_of video clip;
        sf ← parse_screenshot_fps (screenshot_fps video);
        float_truediv vf sf) = Ok ratio
       ∧ base_frame ratio (offset video) aligned_frame
         = pal_to_ntsc_base_frame (F:=float) (offset video) aligned_frame).
Proof.
  intros Hv Hs. unfold video_fps_of. rewrite Hv, Hs. split.
  - exists (Fin (2997 # 2500)). split; [vm_compute; reflexivity|].
    assert (base_frame (Fin (2997 # 2500)) (offset video) aligned_frame
            = Ok (Z.quot (aligned_frame * 2997) 2500 + offset video)) as Hb.
    { rewrite base_frame_exact_value.
      assert (need_fps_conversion (Fin (2997 # 2500)) = true) as ->
        by (vm_compute; reflexivity).
      cbn [Qnum Qden Qmult inject_Z]. do 2 f_equal. }
    split; [|exact Hb]. rewrite Hb.
    unfold pal_to_ntsc_base_frame.
    assert (float_truediv (F:=xfloat) (float_of_decimal false 2997 (-2))
                          (float_of_decimal false 250 (-1))
            = Ok (Fin (29970 # 25000))) as -> by (vm_compute; reflexivity).
    cbn [float_of_int float_mul int_of_float xfloat_PyFloat x_mul x_to_int
         mbind result_bind Qnum Qden Qmult inject_Z].
    do 2 f_equal.
    change (Z.pos (1 * 25000)) with (2500 * 10).
    replace (aligned_frame * 29970) with (aligned_frame * 2997 * 10) by lia.
    symmetry. apply Z.quot_mul_cancel_r; lia.
  - eexists. split; [vm_compute; reflexivity|].
    unfold pal_to_ntsc_base_frame, base_frame.
    match goal with
    | |- (if need_fps_conversion ?r then _ else _) = _ =>
        assert (float_truediv (F:=float) (float_of_decimal false 2997 (-2))
                              (float_of_decimal false 250 (-1))
                = Ok r) as -> by (vm_compute; reflexivity);
        assert (need_fps_conversion r = true) as ->
          by (vm_compute; reflexivity)
    end.
    reflexivity.
Qed.

Lemma pal_to_ntsc_matches_engine_witness :
  base_frame (Fin (2997 # 2500)) 20 52986 = Ok 63539.
Proof.
  destruct (pal_to_ntsc_matches_engine
              (video_with_rates (lit "29.97") (lit "25"))
              {| num_frames := 100000; fps_num := 30000; fps_den := 1001 |}
              52986 eq_refl eq_refl)
    as [(ratio & Hratio & _ & Hb) _].
  assert (ratio = Fin (2997 # 2500)) as ->
    by (vm_compute in Hratio; congruence).
  exact Hb.
Defined.
